(** * Double-pendulum demo: dynamics engine, drag resolver, batch simulator

    A shallow embedding of the three TypeScript sources of the pendulum demo:
    the interactive canvas application (inline engine, drag handlers,
    divergence guard), the plotting application (inline engine with
    stiffness terms, the stand-alone [updateState], the plot with its
    trace recorder and zoom box, the settings panel), and the batch
    simulator [simulateDoublePendulum].

    Numbers.  A JavaScript [number] is modelled by [JS.num]: a finite value
    carried exactly as a real, or one of the three special values
    [+Infinity], [-Infinity], [NaN].  Finite arithmetic is exact (no
    rounding, no overflow), zero is unsigned, [Math.PI] is the real pi.
    Special values arise and propagate as in IEEE 754: [0/0] is [NaN],
    [x/0] is an infinity, comparisons with [NaN] are false, and so on.

    Objects.  The engines are embedded twice: as functions on the four
    fields of a state, and ([App.step_in_place],
    [PlotApp.updateState_call]) as programs on a store of state objects,
    where reading, assigning and allocating are separate operations. *)

From Stdlib Require Import ZArith Reals Lra Lia Bool String List.
Import ListNotations.

Open Scope R_scope.

(* ------------------------------------------------------------------ *)
(** ** JavaScript numbers *)

Module JS.

Inductive num : Type :=
| Fin (r : R)
| PInf
| NInf
| NaN.

(** Sign of a real, as a three-way comparison with zero. *)
Definition Rsign (r : R) : comparison :=
  match total_order_T r 0 with
  | inleft (left _) => Lt
  | inleft (right _) => Eq
  | inright _ => Gt
  end.

Definition neg (a : num) : num :=
  match a with
  | Fin r => Fin (- r)
  | PInf => NInf
  | NInf => PInf
  | NaN => NaN
  end.

Definition add (a b : num) : num :=
  match a, b with
  | NaN, _ | _, NaN => NaN
  | Fin x, Fin y => Fin (x + y)
  | PInf, NInf | NInf, PInf => NaN
  | PInf, _ | _, PInf => PInf
  | NInf, _ | _, NInf => NInf
  end.

Definition sub (a b : num) : num := add a (neg b).

(** An infinity of sign [pos] times the finite value [r]. *)
Definition inf_times (pos : bool) (r : R) : num :=
  match Rsign r with
  | Eq => NaN
  | Gt => if pos then PInf else NInf
  | Lt => if pos then NInf else PInf
  end.

Definition mul (a b : num) : num :=
  match a, b with
  | NaN, _ | _, NaN => NaN
  | Fin x, Fin y => Fin (x * y)
  | PInf, Fin y | Fin y, PInf => inf_times true y
  | NInf, Fin y | Fin y, NInf => inf_times false y
  | PInf, PInf | NInf, NInf => PInf
  | PInf, NInf | NInf, PInf => NInf
  end.

(** Division: a zero divisor gives [NaN] for [0/0] and an infinity
    otherwise (the divisor counts as [+0]). *)
Definition div (a b : num) : num :=
  match a, b with
  | NaN, _ | _, NaN => NaN
  | Fin x, Fin y =>
      if Req_dec_T y 0 then
        match Rsign x with Eq => NaN | Gt => PInf | Lt => NInf end
      else Fin (x / y)
  | Fin _, PInf | Fin _, NInf => Fin 0
  | PInf, Fin y => if Rlt_dec y 0 then NInf else PInf
  | NInf, Fin y => if Rlt_dec y 0 then PInf else NInf
  | PInf, PInf | PInf, NInf | NInf, PInf | NInf, NInf => NaN
  end.

(** Truncation toward zero. *)
Definition Rtrunc (r : R) : R :=
  if Rlt_dec r 0 then - IZR (Int_part (- r)) else IZR (Int_part r).

(** The [%] operator: remainder of the truncated division, with the sign
    of the dividend. *)
Definition rem (a b : num) : num :=
  match a, b with
  | NaN, _ | _, NaN => NaN
  | PInf, _ | NInf, _ => NaN
  | Fin x, PInf | Fin x, NInf => Fin x
  | Fin x, Fin y =>
      if Req_dec_T y 0 then NaN else Fin (x - y * Rtrunc (x / y))
  end.

(** The [**] operator at a natural exponent. *)
Fixpoint pow (a : num) (n : nat) : num :=
  match n with
  | O => Fin 1
  | S k => mul a (pow a k)
  end.

(** [a < b] and [a > b]: false as soon as one side is [NaN]. *)
Definition ltb (a b : num) : bool :=
  match a, b with
  | NaN, _ | _, NaN => false
  | Fin x, Fin y => if Rlt_dec x y then true else false
  | _, NInf => false
  | NInf, _ => true
  | PInf, _ => false
  | Fin _, PInf => true
  end.

Definition gtb (a b : num) : bool := ltb b a.

(** *** The [Math] object *)

Definition PI : num := Fin Rtrigo1.PI.

Definition sin (a : num) : num :=
  match a with Fin r => Fin (Rtrigo_def.sin r) | _ => NaN end.

Definition cos (a : num) : num :=
  match a with Fin r => Fin (Rtrigo_def.cos r) | _ => NaN end.

Definition abs (a : num) : num :=
  match a with
  | Fin r => Fin (Rabs r)
  | PInf | NInf => PInf
  | NaN => NaN
  end.

Definition sqrt (a : num) : num :=
  match a with
  | Fin r => if Rlt_dec r 0 then NaN else Fin (R_sqrt.sqrt r)
  | PInf => PInf
  | NInf | NaN => NaN
  end.

Definition max (a b : num) : num :=
  match a, b with
  | NaN, _ | _, NaN => NaN
  | PInf, _ | _, PInf => PInf
  | NInf, c | c, NInf => c
  | Fin x, Fin y => Fin (Rmax x y)
  end.

Definition min (a b : num) : num :=
  match a, b with
  | NaN, _ | _, NaN => NaN
  | NInf, _ | _, NInf => NInf
  | PInf, c | c, PInf => c
  | Fin x, Fin y => Fin (Rmin x y)
  end.

(** [Math.hypot]: an infinite argument wins even over [NaN]. *)
Definition hypot (a b : num) : num :=
  match a, b with
  | PInf, _ | NInf, _ | _, PInf | _, NInf => PInf
  | NaN, _ | _, NaN => NaN
  | Fin x, Fin y => Fin (R_sqrt.sqrt (x * x + y * y))
  end.

(** [Math.acos]: [NaN] outside [[-1, 1]]. *)
Definition acos (a : num) : num :=
  match a with
  | Fin r =>
      if Rlt_dec r (-1) then NaN
      else if Rlt_dec 1 r then NaN
      else Fin (Ratan.acos r)
  | _ => NaN
  end.

(** Two-argument arctangent of finite values, first argument the
    ordinate. *)
Definition Ratan2 (y x : R) : R :=
  match Rsign x with
  | Gt => atan (y / x)
  | Lt => if Rlt_dec y 0 then atan (y / x) - Rtrigo1.PI
          else atan (y / x) + Rtrigo1.PI
  | Eq => match Rsign y with
          | Gt => Rtrigo1.PI / 2
          | Lt => - (Rtrigo1.PI / 2)
          | Eq => 0
          end
  end.

Definition atan2 (a b : num) : num :=
  match a, b with
  | NaN, _ | _, NaN => NaN
  | Fin y, Fin x => Fin (Ratan2 y x)
  | Fin _, PInf => Fin 0
  | Fin y, NInf => if Rlt_dec y 0 then Fin (- Rtrigo1.PI) else Fin Rtrigo1.PI
  | PInf, Fin _ => Fin (Rtrigo1.PI / 2)
  | NInf, Fin _ => Fin (- (Rtrigo1.PI / 2))
  | PInf, PInf => Fin (Rtrigo1.PI / 4)
  | PInf, NInf => Fin (3 * Rtrigo1.PI / 4)
  | NInf, PInf => Fin (- (Rtrigo1.PI / 4))
  | NInf, NInf => Fin (- (3 * Rtrigo1.PI / 4))
  end.

(** An array read [a[i]] used as a number: a missing element is
    [undefined], which arithmetic turns into [NaN]. *)
Definition get (a : list num) (i : nat) : num := nth i a NaN.

(** [a.push(v)]. *)
Definition push (a : list num) (v : num) : list num := a ++ [v].

End JS.

Declare Scope js_scope.
Delimit Scope js_scope with js.
Bind Scope js_scope with JS.num.

Notation "a + b" := (JS.add a b) : js_scope.
Notation "a - b" := (JS.sub a b) : js_scope.
Notation "a * b" := (JS.mul a b) : js_scope.
Notation "a / b" := (JS.div a b) : js_scope.
Notation "- a" := (JS.neg a) : js_scope.
Notation "a % b" := (JS.rem a b) (at level 40, left associativity) : js_scope.
Notation "a ** n" := (JS.pow a n%nat) (at level 30, right associativity) : js_scope.
Notation "a <? b" := (JS.ltb a b) : js_scope.
Notation "a >? b" := (JS.gtb a b) (at level 70, no associativity) : js_scope.

Import JS(num, Fin, PInf, NInf, NaN).

(** A numeric literal of the source is the finite value it denotes. *)
Coercion JS.Fin : R >-> JS.num.

(* ------------------------------------------------------------------ *)
(** ** Shared data *)

(** The [State] interface of both interactive applications. *)
Module State.
Record t : Type := mk {
  theta1 : num;
  theta2 : num;
  dtheta1 : num;
  dtheta2 : num
}.

(** Field assignments [state.f = v]. *)
Definition set_theta1 (s : t) (v : num) : t :=
  mk v (theta2 s) (dtheta1 s) (dtheta2 s).
Definition set_theta2 (s : t) (v : num) : t :=
  mk (theta1 s) v (dtheta1 s) (dtheta2 s).
Definition set_dtheta1 (s : t) (v : num) : t :=
  mk (theta1 s) (theta2 s) v (dtheta2 s).
Definition set_dtheta2 (s : t) (v : num) : t :=
  mk (theta1 s) (theta2 s) (dtheta1 s) v.
End State.

(** [type DragTarget = 'm1' | 'm2' | null]; [null] is [None]. *)
Inductive Bob : Type := M1 | M2.
Definition DragTarget : Type := option Bob.

(** The object returned by [getBobPositions]. *)
Record Positions : Type := mkPositions {
  x1 : num;
  y1 : num;
  x2 : num;
  y2 : num
}.

(** The object returned by [screenToSim]. *)
Record Point : Type := mkPoint {
  px : num;
  py : num
}.

(* ------------------------------------------------------------------ *)
(** ** Pointer handlers

    [getBobPositions], [screenToSim], [onmousedown], [onmousemove] and
    [onmouseup] have the same text in both interactive applications.  The
    values they destructure from [settingsRef.current] and the canvas width
    are arguments here; [stateRef.current] and [dragTargetRef.current] are
    passed in and returned. *)

Module Pointer.
Local Open Scope js_scope.

Definition getBobPositions (L1 L2 : num) (state : State.t) : Positions :=
  let x1 := L1 * JS.sin (State.theta1 state) in
  let y1 := L1 * JS.cos (State.theta1 state) in
  let x2 := x1 + L2 * JS.sin (State.theta2 state) in
  let y2 := y1 + L2 * JS.cos (State.theta2 state) in
  mkPositions x1 y1 x2 y2.

Definition screenToSim (width : num) (x y : num) : Point :=
  mkPoint (x - width / 2) (y - 100).

(** The new value of [dragTargetRef.current]. *)
Definition onmousedown (m1 m2 L1 L2 width : num) (state : State.t)
    (offsetX offsetY : num) : DragTarget :=
  let p := getBobPositions L1 L2 state in
  let q := screenToSim width offsetX offsetY in
  let x := px q in
  let y := py q in
  let dist1 := JS.hypot (x - x1 p) (y - y1 p) in
  let dist2 := JS.hypot (x - x2 p) (y - y2 p) in
  let r1 := JS.sqrt m1 * 0.5 in
  let r2 := JS.sqrt m2 * 0.5 in
  if dist2 <? r2 + 5 then Some M2
  else if dist1 <? r1 + 5 then Some M1
  else None.

(** The new value of [stateRef.current]. *)
Definition onmousemove (target : DragTarget) (L1 L2 width : num)
    (state : State.t) (offsetX offsetY : num) : State.t :=
  match target with
  | None => state
  | Some b =>
      let q := screenToSim width offsetX offsetY in
      let x := px q in
      let y := py q in
      match b with
      | M1 =>
          let state := State.set_theta1 state (JS.atan2 x y) in
          let state := State.set_dtheta1 state 0 in
          state
      | M2 =>
          let d := JS.hypot x y in
          let clampedD := JS.min (L1 + L2) (JS.max (JS.abs (L1 - L2)) d) in
          let angleToTarget := JS.atan2 x y in
          let cosA :=
            (L1 ** 2 + clampedD ** 2 - L2 ** 2) / (2 * L1 * clampedD) in
          let A := JS.acos (JS.min 1 (JS.max (-1) cosA)) in
          let theta1 := angleToTarget - A in
          let cosB := (L1 ** 2 + L2 ** 2 - clampedD ** 2) / (2 * L1 * L2) in
          let B := JS.acos (JS.min 1 (JS.max (-1) cosB)) in
          let theta2 := JS.PI - B in
          let state := State.set_theta1 state theta1 in
          let state := State.set_theta2 state (theta1 + theta2) in
          let state := State.set_dtheta1 state 0 in
          let state := State.set_dtheta2 state 0 in
          state
      end
  end.

(** Three intermediate values of the bob-2 branch, as functions of the
    lengths and of the pointer in simulation coordinates: the clamped
    distance and the two arguments handed to [Math.acos]. *)
Definition clampedD (L1 L2 x y : num) : num :=
  let d := JS.hypot x y in
  JS.min (L1 + L2) (JS.max (JS.abs (L1 - L2)) d).

Definition acosArgA (L1 L2 x y : num) : num :=
  let clampedD := clampedD L1 L2 x y in
  let cosA := (L1 ** 2 + clampedD ** 2 - L2 ** 2) / (2 * L1 * clampedD) in
  JS.min 1 (JS.max (-1) cosA).

Definition acosArgB (L1 L2 x y : num) : num :=
  let clampedD := clampedD L1 L2 x y in
  let cosB := (L1 ** 2 + L2 ** 2 - clampedD ** 2) / (2 * L1 * L2) in
  JS.min 1 (JS.max (-1) cosB).

Definition onmouseup : DragTarget := None.

End Pointer.

(* ------------------------------------------------------------------ *)
(** ** What one call of a frame callback leaves behind *)

Record Frame : Type := mkFrame {
  frame_state : State.t;          (* stateRef.current afterwards *)
  console : list string;          (* messages passed to console.warn *)
  scheduled : bool                (* requestAnimationFrame(drawFrame) called *)
}.

Definition exploded : string :=
  "Simulation exploded: try reducing negative damping."%string.

(* ------------------------------------------------------------------ *)
(** ** State objects in a store

    [stateRef.current] and the argument of [updateState] are references to
    objects.  A world holds the state objects by address, together with
    what a program can consult besides its arguments: the clock
    ([performance.now()]) and the random generator ([Math.random()]).  A
    program reads a property, assigns to one, or allocates an object
    literal; reading or assigning a property of a missing object throws
    ([None]).  The sources call [performance.now()] in their effects and
    never call [Math.random()]; both are in the world so that a program's
    independence of them can be stated. *)

Module Objects.

Inductive Field : Type := Theta1 | Theta2 | Dtheta1 | Dtheta2.

Record World : Type := mkWorld {
  heap : list State.t;            (* the state objects, by address *)
  clock : num;                    (* what performance.now() returns *)
  randoms : nat -> num;           (* the values Math.random() yields *)
  drawn : nat                     (* how many of them were taken *)
}.

(** A program returning an [A]. *)
Definition M (A : Type) : Type := World -> option (A * World).

Definition ret {A : Type} (a : A) : M A := fun w => Some (a, w).

Definition bind {A B : Type} (m : M A) (k : A -> M B) : M B :=
  fun w => match m w with
           | Some (a, w') => k a w'
           | None => None
           end.

Definition read (f : Field) (o : State.t) : num :=
  match f with
  | Theta1 => State.theta1 o
  | Theta2 => State.theta2 o
  | Dtheta1 => State.dtheta1 o
  | Dtheta2 => State.dtheta2 o
  end.

Definition write (f : Field) (v : num) (o : State.t) : State.t :=
  match f with
  | Theta1 => State.set_theta1 o v
  | Theta2 => State.set_theta2 o v
  | Dtheta1 => State.set_dtheta1 o v
  | Dtheta2 => State.set_dtheta2 o v
  end.

(** The store with the object at address [a] replaced. *)
Fixpoint put (h : list State.t) (a : nat) (o : State.t) : list State.t :=
  match h, a with
  | [], _ => []
  | _ :: t, O => o :: t
  | x :: t, S a' => x :: put t a' o
  end.

(** [ref.f] *)
Definition get (a : nat) (f : Field) : M num :=
  fun w => match nth_error (heap w) a with
           | Some o => Some (read f o, w)
           | None => None
           end.

(** [ref.f = v] *)
Definition set (a : nat) (f : Field) (v : num) : M unit :=
  fun w => match nth_error (heap w) a with
           | Some o =>
               Some (tt, mkWorld (put (heap w) a (write f v o)) (clock w)
                           (randoms w) (drawn w))
           | None => None
           end.

(** An object literal: a new object, after all existing ones. *)
Definition alloc (o : State.t) : M nat :=
  fun w => Some (length (heap w),
                 mkWorld (heap w ++ [o]) (clock w) (randoms w) (drawn w)).

(** [performance.now()] *)
Definition now : M num := fun w => Some (clock w, w).

(** [Math.random()] *)
Definition random : M num :=
  fun w => Some (randoms w (drawn w),
                 mkWorld (heap w) (clock w) (randoms w) (S (drawn w))).

End Objects.

Declare Scope obj_scope.
Delimit Scope obj_scope with obj.

Notation "x <- m ;; k" := (Objects.bind m (fun x => k))
  (at level 61, m at next level, right associativity) : obj_scope.
Notation "m ;; k" := (Objects.bind m (fun _ => k))
  (at level 61, right associativity) : obj_scope.

(* ------------------------------------------------------------------ *)
(** ** The canvas application (first source file) *)

Module App.
Local Open Scope js_scope.

Record Settings : Type := mkSettings {
  speed : num;
  m1 : num;
  m2 : num;
  L1 : num;
  L2 : num;
  g : num;
  damping : num
}.

Section Engine.
Variable st : Settings.
Variable s : State.t.

Let theta1 := State.theta1 s.
Let theta2 := State.theta2 s.
Let dtheta1 := State.dtheta1 s.
Let dtheta2 := State.dtheta2 s.

Definition delta : num := theta1 - theta2.

Definition denom : num :=
  2 * m1 st + m2 st - m2 st * JS.cos (2 * delta).

(** The parenthesised numerators of the two accelerations. *)
Definition ddtheta1_num : num :=
  - g st * (2 * m1 st + m2 st) * JS.sin theta1
  - m2 st * g st * JS.sin (theta1 - 2 * theta2)
  - 2 * JS.sin delta * m2 st *
      (dtheta2 ** 2 * L2 st + dtheta1 ** 2 * L1 st * JS.cos delta).

Definition ddtheta1 : num := ddtheta1_num / (L1 st * denom).

Definition ddtheta2_num : num :=
  2 * JS.sin delta *
    (dtheta1 ** 2 * L1 st * (m1 st + m2 st)
     + g st * (m1 st + m2 st) * JS.cos theta1
     + dtheta2 ** 2 * L2 st * m2 st * JS.cos delta).

Definition ddtheta2 : num := ddtheta2_num / (L2 st * denom).

End Engine.

(** [((theta + Math.PI) % (2 * Math.PI)) - Math.PI]. *)
Definition wrap (theta : num) : num :=
  ((theta + JS.PI) % (2 * JS.PI)) - JS.PI.

(** The four assignments that advance velocities and angles, in source
    order; each reads the fields as the previous assignments left them. *)
Definition advance (damping dt ddtheta1 ddtheta2 : num) (s : State.t)
    : State.t :=
  let dtheta1 := State.dtheta1 s in
  let dtheta2 := State.dtheta2 s in
  let s := State.set_dtheta1 s
             (State.dtheta1 s + (ddtheta1 - damping * dtheta1) * dt) in
  let s := State.set_dtheta2 s
             (State.dtheta2 s + (ddtheta2 - damping * dtheta2) * dt) in
  let s := State.set_theta1 s (State.theta1 s + State.dtheta1 s * dt) in
  let s := State.set_theta2 s (State.theta2 s + State.dtheta2 s * dt) in
  s.

(** The body of [if (!dragTargetRef.current) { ... }] in [drawFrame]. *)
Definition step (st : Settings) (dt : num) (s : State.t) : State.t :=
  let s := advance (damping st) dt (ddtheta1 st s) (ddtheta2 st s) s in
  let s := State.set_theta1 s (wrap (State.theta1 s)) in
  let s := State.set_theta2 s (wrap (State.theta2 s)) in
  s.

(** The same block as a program on the store: [stateRef.current] is the
    object at address [stateRef], and each assignment writes to it. *)
Definition step_in_place (st : Settings) (dt : num) (stateRef : nat)
    : Objects.M unit :=
  (theta1 <- Objects.get stateRef Objects.Theta1 ;;
   theta2 <- Objects.get stateRef Objects.Theta2 ;;
   dtheta1 <- Objects.get stateRef Objects.Dtheta1 ;;
   dtheta2 <- Objects.get stateRef Objects.Dtheta2 ;;
   let s := State.mk theta1 theta2 dtheta1 dtheta2 in
   let ddtheta1 := ddtheta1 st s in
   let ddtheta2 := ddtheta2 st s in
   v <- Objects.get stateRef Objects.Dtheta1 ;;
   Objects.set stateRef Objects.Dtheta1
     (v + (ddtheta1 - damping st * dtheta1) * dt) ;;
   v <- Objects.get stateRef Objects.Dtheta2 ;;
   Objects.set stateRef Objects.Dtheta2
     (v + (ddtheta2 - damping st * dtheta2) * dt) ;;
   x <- Objects.get stateRef Objects.Theta1 ;;
   v <- Objects.get stateRef Objects.Dtheta1 ;;
   Objects.set stateRef Objects.Theta1 (x + v * dt) ;;
   x <- Objects.get stateRef Objects.Theta2 ;;
   v <- Objects.get stateRef Objects.Dtheta2 ;;
   Objects.set stateRef Objects.Theta2 (x + v * dt) ;;
   x <- Objects.get stateRef Objects.Theta1 ;;
   Objects.set stateRef Objects.Theta1 (wrap x) ;;
   x <- Objects.get stateRef Objects.Theta2 ;;
   Objects.set stateRef Objects.Theta2 (wrap x))%obj.

Definition fixedDt : num := 1 / 20.

Definition drawFrame (st : Settings) (target : DragTarget) (s : State.t)
    : Frame :=
  let dt := fixedDt * speed st in
  let s := match target with
           | None => step st dt s
           | Some _ => s
           end in
  let p := Pointer.getBobPositions (L1 st) (L2 st) s in
  if (JS.abs (x1 p) >? 10000) || (JS.abs (x2 p) >? 10000)
  then mkFrame s [exploded] false
  else mkFrame s [] true.

End App.

(* ------------------------------------------------------------------ *)
(** ** The plotting application (second source file) *)

Module PlotApp.
Local Open Scope js_scope.

Record Settings : Type := mkSettings {
  speed : num;
  m1 : num;
  m2 : num;
  L1 : num;
  L2 : num;
  g : num;
  damping : num;
  k1 : num;
  k2 : num
}.

(** The settings of the canvas application that these settings extend. *)
Definition without_stiffness (st : Settings) : App.Settings :=
  App.mkSettings (speed st) (m1 st) (m2 st) (L1 st) (L2 st) (g st)
    (damping st).

(** *** The inline engine of [drawFrame] *)

Section Engine.
Variable st : Settings.
Variable s : State.t.

Let theta1 := State.theta1 s.
Let theta2 := State.theta2 s.
Let dtheta1 := State.dtheta1 s.
Let dtheta2 := State.dtheta2 s.

Definition delta : num := theta1 - theta2.

Definition denom : num :=
  2 * m1 st + m2 st - m2 st * JS.cos (2 * delta).

Definition ddtheta1_num : num :=
  - g st * (2 * m1 st + m2 st) * JS.sin theta1
  - m2 st * g st * JS.sin (theta1 - 2 * theta2)
  - 2 * JS.sin delta * m2 st *
      (dtheta2 ** 2 * L2 st + dtheta1 ** 2 * L1 st * JS.cos delta)
  - k1 st * theta1.

Definition ddtheta1 : num := ddtheta1_num / (L1 st * denom).

Definition ddtheta2_num : num :=
  2 * JS.sin delta *
    (dtheta1 ** 2 * L1 st * (m1 st + m2 st)
     + g st * (m1 st + m2 st) * JS.cos theta1
     + dtheta2 ** 2 * L2 st * m2 st * JS.cos delta)
  - k2 st * (theta2 - theta1).

Definition ddtheta2 : num := ddtheta2_num / (L2 st * denom).

End Engine.

(** The six assignments are those of the canvas application. *)
Definition step (st : Settings) (dt : num) (s : State.t) : State.t :=
  let s := App.advance (damping st) dt (ddtheta1 st s) (ddtheta2 st s) s in
  let s := State.set_theta1 s (App.wrap (State.theta1 s)) in
  let s := State.set_theta2 s (App.wrap (State.theta2 s)) in
  s.

Definition fixedDt : num := 1 / 10.

Definition drawFrame (st : Settings) (target : DragTarget) (s : State.t)
    : Frame :=
  let dt := fixedDt * speed st in
  let s := match target with
           | None => step st dt s
           | Some _ => s
           end in
  let p := Pointer.getBobPositions (L1 st) (L2 st) s in
  if (JS.abs (x1 p) >? 10000) || (JS.abs (x2 p) >? 10000)
  then mkFrame s [exploded] false
  else mkFrame s [] true.

(** *** [updateState] *)

Module Update.
Section Accelerations.
Variable state : State.t.
Variable settings : Settings.

Let theta1 := State.theta1 state.
Let theta2 := State.theta2 state.
Let dtheta1 := State.dtheta1 state.
Let dtheta2 := State.dtheta2 state.

Definition den : num :=
  (m1 settings + m2 settings) * L1 settings
  - m2 settings * L1 settings
      * JS.cos (theta1 - theta2) * JS.cos (theta1 - theta2).

(** The numerator of [ddtheta1]: the terms of the plain pendulum, then the
    two terms the source marks as added (spring, damping). *)
Definition ddtheta1_plain : num :=
  - g settings * (m1 settings + m2 settings) * JS.sin theta1
  - m2 settings * g settings * JS.sin (theta1 - 2 * theta2)
  - 2 * JS.sin (theta1 - theta2) * m2 settings *
      (dtheta2 * dtheta2 * L2 settings
       + dtheta1 * dtheta1 * L1 settings * JS.cos (theta1 - theta2)).

Definition ddtheta1_num : num :=
  ddtheta1_plain
  - k1 settings * theta1
  - damping settings * dtheta1.

Definition ddtheta1 : num := ddtheta1_num / (L1 settings * den).

(** Likewise for [ddtheta2]. *)
Definition ddtheta2_plain : num :=
  2 * JS.sin (theta1 - theta2) *
    (dtheta1 * dtheta1 * L1 settings * (m1 settings + m2 settings)
     + g settings * (m1 settings + m2 settings) * JS.cos theta1
     + dtheta2 * dtheta2 * L2 settings * m2 settings
         * JS.cos (theta1 - theta2)).

Definition ddtheta2_num : num :=
  ddtheta2_plain
  - k2 settings * theta2
  - damping settings * dtheta2.

Definition ddtheta2 : num := ddtheta2_num / (L2 settings * den).

End Accelerations.
End Update.

Definition updateState (state : State.t) (dt : num) (settings : Settings)
    : State.t :=
  let theta1 := State.theta1 state in
  let theta2 := State.theta2 state in
  let dtheta1 := State.dtheta1 state in
  let dtheta2 := State.dtheta2 state in
  let ddtheta1 := Update.ddtheta1 state settings in
  let ddtheta2 := Update.ddtheta2 state settings in
  let newDtheta1 := dtheta1 + ddtheta1 * dt in
  let newDtheta2 := dtheta2 + ddtheta2 * dt in
  let newTheta1 := theta1 + newDtheta1 * dt in
  let newTheta2 := theta2 + newDtheta2 * dt in
  State.mk newTheta1 newTheta2 newDtheta1 newDtheta2.

(** *** [updateState] as a program on the store

    The argument [state] is the address of an object: the destructuring
    reads its four properties, and the object literal after [return] is a
    new allocation, whose address is returned.  The settings are passed by
    value. *)

Definition updateState_call (state : nat) (dt : num) (settings : Settings)
    : Objects.M nat :=
  (theta1 <- Objects.get state Objects.Theta1 ;;
   theta2 <- Objects.get state Objects.Theta2 ;;
   dtheta1 <- Objects.get state Objects.Dtheta1 ;;
   dtheta2 <- Objects.get state Objects.Dtheta2 ;;
   let s := State.mk theta1 theta2 dtheta1 dtheta2 in
   let ddtheta1 := Update.ddtheta1 s settings in
   let ddtheta2 := Update.ddtheta2 s settings in
   let newDtheta1 := dtheta1 + ddtheta1 * dt in
   let newDtheta2 := dtheta2 + ddtheta2 * dt in
   let newTheta1 := theta1 + newDtheta1 * dt in
   let newTheta2 := theta2 + newDtheta2 * dt in
   Objects.alloc (State.mk newTheta1 newTheta2 newDtheta1 newDtheta2))%obj.

(** *** The plot: [getPlotValue], [animate], [drawPlot]

    [timeRef.current] is the argument [time]; the [settings] and
    [plotOptions] are the ones the callbacks close over. *)

Definition getPlotValue (settings : Settings) (time : num) (param : string)
    (state : State.t) : num :=
  let x1 := L1 settings * JS.sin (State.theta1 state) in
  let y1 := - L1 settings * JS.cos (State.theta1 state) in
  let x2 := x1 + L2 settings * JS.sin (State.theta2 state) in
  let y2 := y1 - L2 settings * JS.cos (State.theta2 state) in
  if String.eqb param "time" then time
  else if String.eqb param "x1" then x1
  else if String.eqb param "y1" then y1
  else if String.eqb param "x2" then x2
  else if String.eqb param "y2" then y2
  else if String.eqb param "theta1" then State.theta1 state
  else if String.eqb param "theta2" then State.theta2 state
  else 0.

Record PlotOptions : Type := mkPlotOptions {
  xAxis : string;
  yAxis : string
}.

Module TracePoint.
Record t : Type := mk {
  x : num;
  y : num;
  timestamp : num
}.
End TracePoint.

(** [!a] for a number [a]: true for zero and for [NaN]. *)
Definition falsy (a : num) : bool :=
  match a with
  | Fin r => if Req_dec_T r 0 then true else false
  | NaN => true
  | PInf | NInf => false
  end.

(** The refs that [animate] reads and writes. *)
Record Anim : Type := mkAnim {
  lastTimeRef : num;
  timeRef : num;
  stateRef : State.t;
  tracePointsRef : list TracePoint.t
}.

(** One call of [animate]; both of its paths end by scheduling the next
    call, and the second one also calls [drawPlot]. *)
Definition animate (settings : Settings) (plotOptions : PlotOptions)
    (timestamp : num) (a : Anim) : Anim :=
  if falsy (lastTimeRef a) then
    mkAnim timestamp (timeRef a) (stateRef a) (tracePointsRef a)
  else
    let deltaTime := (timestamp - lastTimeRef a) / 1000 in
    let time := timeRef a + deltaTime * speed settings in
    let newState :=
      updateState (stateRef a) (deltaTime * speed settings) settings in
    let point :=
      TracePoint.mk (getPlotValue settings time (xAxis plotOptions) newState)
        (getPlotValue settings time (yAxis plotOptions) newState) time in
    let trace := tracePointsRef a ++ [point] in
    let trace := if Nat.ltb 5000 (length trace) then tl trace else trace in
    mkAnim timestamp time newState trace.

(** The refs as the effect leaves them before the first call. *)
Definition animStart (state : State.t) : Anim := mkAnim 0 0 state [].

Module ZoomWindow.
Record t : Type := mk {
  startX : num;
  startY : num;
  endX : num;
  endY : num
}.
End ZoomWindow.

(** [Math.max(...l)]: [-Infinity] for no argument, [NaN] as soon as one
    argument is [NaN]. *)
Definition max_of (l : list num) : num := fold_left JS.max l NInf.

(** The [scale] that [drawPlot] computes once there are two points. *)
Definition plotScale (width height : num) (isAutoScale : bool)
    (zoomRef : option ZoomWindow.t) (points : list TracePoint.t) : num :=
  if isAutoScale then
    let visiblePoints := skipn (length points - 100) points in
    let xMax :=
      max_of (map (fun p => JS.abs (TracePoint.x p)) visiblePoints ++ [Fin 0.1]) in
    let yMax :=
      max_of (map (fun p => JS.abs (TracePoint.y p)) visiblePoints ++ [Fin 0.1]) in
    JS.min (width / 2 / xMax) (height / 2 / yMax) * 0.8
  else
    match zoomRef with
    | Some zoom =>
        let xRange := JS.abs (ZoomWindow.endX zoom - ZoomWindow.startX zoom) in
        let yRange := JS.abs (ZoomWindow.endY zoom - ZoomWindow.startY zoom) in
        JS.min (width / xRange) (height / yRange) * 0.4
    | None => 1
    end.

(** The vertices of the trace that [drawPlot] strokes ([moveTo] for the
    first point, [lineTo] for the others); nothing with fewer than two
    points. *)
Definition drawPlot (width height : num) (isAutoScale : bool)
    (zoomRef : option ZoomWindow.t) (points : list TracePoint.t)
    : list Point :=
  if Nat.ltb (length points) 2 then []
  else
    let scale := plotScale width height isAutoScale zoomRef points in
    map (fun p => mkPoint (width / 2 + TracePoint.x p * scale)
                    (height / 2 - TracePoint.y p * scale)) points.

(** *** The zoom box *)

Record Zoom : Type := mkZoom {
  isAutoScale : bool;
  zoomWindow : option ZoomWindow.t;
  isDragging : bool;
  zoomRef : option ZoomWindow.t;
  dragStartRef : option Point
}.

Definition zoomStart : Zoom := mkZoom true None false None None.

Definition getPlotCoords (rectLeft rectTop clientX clientY : num) : Point :=
  mkPoint (clientX - rectLeft) (clientY - rectTop).

Definition handleMouseDown (coords : Point) (z : Zoom) : Zoom :=
  mkZoom (isAutoScale z) (zoomWindow z) true (zoomRef z) (Some coords).

Definition handleMouseMove (coords : Point) (z : Zoom) : Zoom :=
  if isDragging z then
    match dragStartRef z with
    | Some start =>
        mkZoom (isAutoScale z)
          (Some (ZoomWindow.mk (px start) (py start) (px coords) (py coords)))
          (isDragging z) (zoomRef z) (dragStartRef z)
    | None => z
    end
  else z.

Definition handleMouseUp (z : Zoom) : Zoom :=
  let z :=
    if isDragging z then
      match zoomWindow z with
      | Some w =>
          if (JS.abs (ZoomWindow.endX w - ZoomWindow.startX w) >? 10)
             && (JS.abs (ZoomWindow.endY w - ZoomWindow.startY w) >? 10)
          then mkZoom false (zoomWindow z) (isDragging z) (Some w)
                 (dragStartRef z)
          else z
      | None => z
      end
    else z in
  mkZoom (isAutoScale z) None false (zoomRef z) (dragStartRef z).

Definition resetZoom (z : Zoom) : Zoom :=
  mkZoom true (zoomWindow z) (isDragging z) None (dragStartRef z).

(** *** The settings panel: [updateSetting], [toggleConceptual] *)

Module ConceptualValues.
Record t : Type := mk {
  damping : num;
  k1 : num;
  k2 : num
}.
End ConceptualValues.

(** [keyof Settings]. *)
Module Key.
Inductive t : Type :=
  speed | m1 | m2 | L1 | L2 | g | damping | k1 | k2.
End Key.

(** [{ ...prev, [key]: value }] on the settings. *)
Definition withKey (prev : Settings) (key : Key.t) (value : num) : Settings :=
  match key with
  | Key.speed => mkSettings value (m1 prev) (m2 prev) (L1 prev) (L2 prev)
                   (g prev) (damping prev) (k1 prev) (k2 prev)
  | Key.m1 => mkSettings (speed prev) value (m2 prev) (L1 prev) (L2 prev)
                (g prev) (damping prev) (k1 prev) (k2 prev)
  | Key.m2 => mkSettings (speed prev) (m1 prev) value (L1 prev) (L2 prev)
                (g prev) (damping prev) (k1 prev) (k2 prev)
  | Key.L1 => mkSettings (speed prev) (m1 prev) (m2 prev) value (L2 prev)
                (g prev) (damping prev) (k1 prev) (k2 prev)
  | Key.L2 => mkSettings (speed prev) (m1 prev) (m2 prev) (L1 prev) value
                (g prev) (damping prev) (k1 prev) (k2 prev)
  | Key.g => mkSettings (speed prev) (m1 prev) (m2 prev) (L1 prev) (L2 prev)
               value (damping prev) (k1 prev) (k2 prev)
  | Key.damping => mkSettings (speed prev) (m1 prev) (m2 prev) (L1 prev)
                     (L2 prev) (g prev) value (k1 prev) (k2 prev)
  | Key.k1 => mkSettings (speed prev) (m1 prev) (m2 prev) (L1 prev)
                (L2 prev) (g prev) (damping prev) value (k2 prev)
  | Key.k2 => mkSettings (speed prev) (m1 prev) (m2 prev) (L1 prev)
                (L2 prev) (g prev) (damping prev) (k1 prev) value
  end.

(** The three pieces of React state the two callbacks touch. *)
Record Panel : Type := mkPanel {
  settings : Settings;
  conceptualEnabled : bool;
  activeValues : ConceptualValues.t
}.

Definition updateSetting (key : Key.t) (value : num) (p : Panel) : Panel :=
  let settings' := withKey (settings p) key value in
  let prev := activeValues p in
  let activeValues' :=
    match key with
    | Key.damping =>
        ConceptualValues.mk value (ConceptualValues.k1 prev)
          (ConceptualValues.k2 prev)
    | Key.k1 =>
        ConceptualValues.mk (ConceptualValues.damping prev) value
          (ConceptualValues.k2 prev)
    | Key.k2 =>
        ConceptualValues.mk (ConceptualValues.damping prev)
          (ConceptualValues.k1 prev) value
    | _ => prev
    end in
  mkPanel settings' (conceptualEnabled p) activeValues'.

Definition toggleConceptual (enabled : bool) (p : Panel) : Panel :=
  let prev := settings p in
  if enabled then
    mkPanel
      (mkSettings (speed prev) (m1 prev) (m2 prev) (L1 prev) (L2 prev)
         (g prev) (ConceptualValues.damping (activeValues p))
         (ConceptualValues.k1 (activeValues p))
         (ConceptualValues.k2 (activeValues p)))
      enabled (activeValues p)
  else
    mkPanel
      (mkSettings (speed prev) (m1 prev) (m2 prev) (L1 prev) (L2 prev)
         (g prev) 0 0 0)
      enabled
      (ConceptualValues.mk (damping prev) (k1 prev) (k2 prev)).

(** The panel state of the first render. *)
Definition panelStart : Panel :=
  mkPanel (mkSettings 1 100 50 100 50 9.81 0.01 0 0) true
    (ConceptualValues.mk 0.01 0 0).

End PlotApp.

(* ------------------------------------------------------------------ *)
(** ** The batch simulator (simulate.ts) *)

Module Simulate.
Local Open Scope js_scope.

Record PendulumParams : Type := mkParams {
  m1 : num;
  m2 : num;
  L1 : num;
  L2 : num;
  g : num;
  theta1 : num;
  theta2 : num;
  dtheta1 : num;
  dtheta2 : num;
  dt : num;
  steps : num
}.

(** The four arrays [x1], [y1], [x2], [y2]. *)
Definition Traces : Type := (list num * list num * list num * list num)%type.

(** The [let]-bound variables at loop entry. *)
Definition init (p : PendulumParams) : State.t :=
  State.mk (theta1 p) (theta2 p) (dtheta1 p) (dtheta2 p).

(** The first half of the loop body: the new values of the four
    [let]-bound variables. *)
Definition integrate (p : PendulumParams) (s : State.t) : State.t :=
  let theta1 := State.theta1 s in
  let theta2 := State.theta2 s in
  let dtheta1 := State.dtheta1 s in
  let dtheta2 := State.dtheta2 s in
  let delta := theta1 - theta2 in
  let denom := 2 * m1 p + m2 p - m2 p * JS.cos (2 * delta) in
  let ddtheta1 :=
    (- g p * (2 * m1 p + m2 p) * JS.sin theta1
     - m2 p * g p * JS.sin (theta1 - 2 * theta2)
     - 2 * JS.sin delta * m2 p *
         (dtheta2 ** 2 * L2 p + dtheta1 ** 2 * L1 p * JS.cos delta))
    / (L1 p * denom) in
  let ddtheta2 :=
    (2 * JS.sin delta *
       (dtheta1 ** 2 * L1 p * (m1 p + m2 p)
        + g p * (m1 p + m2 p) * JS.cos theta1
        + dtheta2 ** 2 * L2 p * m2 p * JS.cos delta))
    / (L2 p * denom) in
  let dtheta1 := dtheta1 + ddtheta1 * dt p in
  let dtheta2 := dtheta2 + ddtheta2 * dt p in
  let theta1 := theta1 + dtheta1 * dt p in
  let theta2 := theta2 + dtheta2 * dt p in
  State.mk theta1 theta2 dtheta1 dtheta2.

(** The second half: the four [push] calls at loop index [i]. *)
Definition record (p : PendulumParams) (i : nat) (s : State.t)
    (tr : Traces) : Traces :=
  let '(x1, y1, x2, y2) := tr in
  let x1 := JS.push x1 (L1 p * JS.sin (State.theta1 s)) in
  let y1 := JS.push y1 (- L1 p * JS.cos (State.theta1 s)) in
  let x2 := JS.push x2 (JS.get x1 i + L2 p * JS.sin (State.theta2 s)) in
  let y2 := JS.push y2 (JS.get y1 i - L2 p * JS.cos (State.theta2 s)) in
  (x1, y1, x2, y2).

(** [for (let i = 0; i < steps; i++) { ... }], from index [i] on.  The
    loop need not end ([steps] may be [Infinity]), hence the fuel: one unit
    per evaluation of the loop test. *)
Fixpoint loop (fuel : nat) (p : PendulumParams) (i : nat) (s : State.t)
    (tr : Traces) : option Traces :=
  match fuel with
  | O => None
  | S fuel' =>
      if Fin (INR i) <? steps p then
        let s := integrate p s in
        let tr := record p i s tr in
        loop fuel' p (S i) s tr
      else Some tr
  end.

Definition simulateDoublePendulum (fuel : nat) (p : PendulumParams)
    : option Traces :=
  loop fuel p 0 (init p) ([], [], [], []).

End Simulate.

(* ------------------------------------------------------------------ *)
(** ** Vocabulary of the properties *)

(** [a] is a finite number in the half-open interval [(lo, hi]]. *)
Definition in_oc (lo hi : R) (a : num) : Prop :=
  exists r, a = Fin r /\ lo < r <= hi.

(** [a] is a finite number in the half-open interval [[lo, hi)]. *)
Definition in_co (lo hi : R) (a : num) : Prop :=
  exists r, a = Fin r /\ lo <= r < hi.

(** [a] is a finite number in the closed interval [[lo, hi]]. *)
Definition in_cc (lo hi : R) (a : num) : Prop :=
  exists r, a = Fin r /\ lo <= r <= hi.

(** Velocity first, then angle from the new velocity, with damping in the
    velocity update: the scheme a step from [s] to [s'] follows when its
    accelerations are [a1] and [a2]. *)
Definition semi_implicit (damping dt a1 a2 : num) (s s' : State.t) : Prop :=
  (State.dtheta1 s' = State.dtheta1 s + (a1 - damping * State.dtheta1 s) * dt
   /\ State.dtheta2 s' = State.dtheta2 s + (a2 - damping * State.dtheta2 s) * dt
   /\ State.theta1 s' = State.theta1 s + State.dtheta1 s' * dt
   /\ State.theta2 s' = State.theta2 s + State.dtheta2 s' * dt)%js.

(** Distance of bob 2 from the pivot, by forward kinematics. *)
Definition bob2_distance (L1 L2 : num) (s : State.t) : num :=
  let p := Pointer.getBobPositions L1 L2 s in
  JS.hypot (x2 p) (y2 p).

(** The initial values of [useState] and [useRef] in the interactive
    applications. *)
Definition App_defaults : App.Settings :=
  App.mkSettings 1 100 50 100 50 9.81 0.01.

Definition PlotApp_defaults : PlotApp.Settings :=
  PlotApp.mkSettings 1 100 50 100 50 9.81 0.01 0 0.

Definition initial_state : State.t :=
  State.mk (JS.PI / 2) (JS.PI / 4) 0 0.

(** A state at rest with both links at angle [a]. *)
Definition at_rest (a : R) : State.t := State.mk a a 0 0.

(** The call of the batch simulator in the animation page. *)
Definition animation_params : Simulate.PendulumParams :=
  Simulate.mkParams 100 50 1 0.5 9.81 (JS.PI / 2) (JS.PI / 4) 0 0 0.01 300.

(** The settings of the canvas application under which the batch
    simulator runs: same masses, lengths and gravity, no damping. *)
Definition Simulate_settings (p : Simulate.PendulumParams) : App.Settings :=
  App.mkSettings 1 (Simulate.m1 p) (Simulate.m2 p) (Simulate.L1 p)
    (Simulate.L2 p) (Simulate.g p) 0.

(** One integration step without damping, stiffness or wrap: the
    accelerations are those of the canvas engine at the current state,
    each velocity advances by its acceleration times [dt], and each angle
    by the new velocity times [dt]. *)
Definition undamped_step (st : App.Settings) (dt : num) (s : State.t)
    : State.t :=
  let dtheta1 := (State.dtheta1 s + App.ddtheta1 st s * dt)%js in
  let dtheta2 := (State.dtheta2 s + App.ddtheta2 st s * dt)%js in
  State.mk (State.theta1 s + dtheta1 * dt)%js
           (State.theta2 s + dtheta2 * dt)%js dtheta1 dtheta2.

(** The pendulum after [k] integration steps of size [dt] from the angles
    and velocities that the parameter record gives. *)
Definition state_after (p : Simulate.PendulumParams) (k : nat) : State.t :=
  Nat.iter k (undamped_step (Simulate_settings p) (Simulate.dt p))
    (State.mk (Simulate.theta1 p) (Simulate.theta2 p)
       (Simulate.dtheta1 p) (Simulate.dtheta2 p)).

(** The four arrays hold [i] entries each, and entry [j] holds the bob
    positions after [j + 1] integration steps, [y] pointing down:
    [y1 = -L1*cos(theta1)], [y2 = y1 - L2*cos(theta2)]. *)
Definition traces_upto (p : Simulate.PendulumParams) (i : nat)
    (tr : Simulate.Traces) : Prop :=
  let '(x1, y1, x2, y2) := tr in
  length x1 = i /\ length y1 = i /\ length x2 = i /\ length y2 = i
  /\ forall j, (j < i)%nat ->
       let s := state_after p (S j) in
       (JS.get x1 j = Simulate.L1 p * JS.sin (State.theta1 s)
        /\ JS.get y1 j = - Simulate.L1 p * JS.cos (State.theta1 s)
        /\ JS.get x2 j = JS.get x1 j + Simulate.L2 p * JS.sin (State.theta2 s)
        /\ JS.get y2 j
           = JS.get y1 j - Simulate.L2 p * JS.cos (State.theta2 s))%js.

(** The clamped target distance of the bob-2 resolver on finite values:
    [min(L1 + L2, max(|L1 - L2|, hypot(x, y)))]. *)
Definition Rclamped (L1 L2 x y : R) : R :=
  Rmin (L1 + L2) (Rmax (Rabs (L1 - L2)) (sqrt (x * x + y * y))).

(** A run of [animate] over successive frame timestamps. *)
Definition animate_run (settings : PlotApp.Settings)
    (plotOptions : PlotApp.PlotOptions) (timestamps : list num)
    (a : PlotApp.Anim) : PlotApp.Anim :=
  fold_left (fun a t => PlotApp.animate settings plotOptions t a) timestamps a.

(** The events of the zoom box and a run of their handlers. *)
Inductive ZoomEvent : Type :=
| MouseDown (coords : Point)
| MouseMove (coords : Point)
| MouseUp
| ResetZoom.

Definition zoom_handle (z : PlotApp.Zoom) (e : ZoomEvent) : PlotApp.Zoom :=
  match e with
  | MouseDown c => PlotApp.handleMouseDown c z
  | MouseMove c => PlotApp.handleMouseMove c z
  | MouseUp => PlotApp.handleMouseUp z
  | ResetZoom => PlotApp.resetZoom z
  end.

Definition zoom_run (events : list ZoomEvent) (z : PlotApp.Zoom) : PlotApp.Zoom :=
  fold_left zoom_handle events z.

(** The events of the settings panel and a run of their callbacks. *)
Inductive PanelEvent : Type :=
| Slider (key : PlotApp.Key.t) (value : num)
| Checkbox (enabled : bool).

Definition panel_handle (p : PlotApp.Panel) (e : PanelEvent) : PlotApp.Panel :=
  match e with
  | Slider key value => PlotApp.updateSetting key value p
  | Checkbox enabled => PlotApp.toggleConceptual enabled p
  end.

Definition panel_run (events : list PanelEvent) (p : PlotApp.Panel)
    : PlotApp.Panel :=
  fold_left panel_handle events p.

(** The conceptual values that the settings currently hold. *)
Definition conceptual_of (st : PlotApp.Settings) : PlotApp.ConceptualValues.t :=
  PlotApp.ConceptualValues.mk (PlotApp.damping st) (PlotApp.k1 st)
    (PlotApp.k2 st).

(** A trace point with finite coordinates. *)
Definition finite_point (p : PlotApp.TracePoint.t) : Prop :=
  exists a b : R, PlotApp.TracePoint.x p = Fin a /\ PlotApp.TracePoint.y p = Fin b.

(** The finite coordinates of a trace point (zero where not finite). *)
Definition Rx (p : PlotApp.TracePoint.t) : R :=
  match PlotApp.TracePoint.x p with Fin a => a | _ => 0 end.

Definition Ry (p : PlotApp.TracePoint.t) : R :=
  match PlotApp.TracePoint.y p with Fin b => b | _ => 0 end.

(** While the conceptual properties are enabled, the stored active values
    are the ones in the settings. *)
Definition panel_in_sync (p : PlotApp.Panel) : Prop :=
  PlotApp.conceptualEnabled p = true ->
  PlotApp.activeValues p = conceptual_of (PlotApp.settings p).

(** A zoom window wider and taller than ten pixels. *)
Definition big_window (w : PlotApp.ZoomWindow.t) : Prop :=
  JS.gtb (JS.abs (JS.sub (PlotApp.ZoomWindow.endX w)
                    (PlotApp.ZoomWindow.startX w))) (Fin 10) = true
  /\ JS.gtb (JS.abs (JS.sub (PlotApp.ZoomWindow.endY w)
                       (PlotApp.ZoomWindow.startY w))) (Fin 10) = true.

(** What every reachable zoom state satisfies. *)
Definition zoom_ok (z : PlotApp.Zoom) : Prop :=
  (PlotApp.isAutoScale z = true /\ PlotApp.zoomRef z = None
   \/ PlotApp.isAutoScale z = false
      /\ exists w, PlotApp.zoomRef z = Some w /\ big_window w)
  /\ (PlotApp.isDragging z = false -> PlotApp.zoomWindow z = None).

(** The trace point a stepping frame records: the plot values of the
    state, and the simulated time, that the frame leaves in the refs. *)
Definition point_of (settings : PlotApp.Settings)
    (plotOptions : PlotApp.PlotOptions) (a : PlotApp.Anim)
    : PlotApp.TracePoint.t :=
  PlotApp.TracePoint.mk
    (PlotApp.getPlotValue settings (PlotApp.timeRef a)
       (PlotApp.xAxis plotOptions) (PlotApp.stateRef a))
    (PlotApp.getPlotValue settings (PlotApp.timeRef a)
       (PlotApp.yAxis plotOptions) (PlotApp.stateRef a))
    (PlotApp.timeRef a).

(** The points of the frames at the given timestamps, run one after the
    other from [a], in the order of the frames. *)
Fixpoint recorded (settings : PlotApp.Settings)
    (plotOptions : PlotApp.PlotOptions) (timestamps : list num)
    (a : PlotApp.Anim) : list PlotApp.TracePoint.t :=
  match timestamps with
  | [] => []
  | t :: rest =>
      let a' := PlotApp.animate settings plotOptions t a in
      point_of settings plotOptions a' :: recorded settings plotOptions rest a'
  end.

(** Every object of [w] is still at its address in [w'] with the fields it
    had, and the clock and the random generator are where they were. *)
Definition untouched (w w' : Objects.World) : Prop :=
  (forall a o, nth_error (Objects.heap w) a = Some o ->
               nth_error (Objects.heap w') a = Some o)
  /\ Objects.clock w' = Objects.clock w
  /\ Objects.randoms w' = Objects.randoms w
  /\ Objects.drawn w' = Objects.drawn w.

(* ------------------------------------------------------------------ *)
(** ** Proof tools *)

(** Reduction of record fields and of the operations that compute on
    finite values by plain case analysis. *)
Ltac js_fields :=
  cbv beta delta [State.set_theta1 State.set_theta2 State.set_dtheta1
                  State.set_dtheta2 PlotApp.without_stiffness];
  cbn [State.theta1 State.theta2 State.dtheta1 State.dtheta2
       App.speed App.m1 App.m2 App.L1 App.L2 App.g App.damping
       PlotApp.speed PlotApp.m1 PlotApp.m2 PlotApp.L1 PlotApp.L2 PlotApp.g
       PlotApp.damping PlotApp.k1 PlotApp.k2
       Simulate.m1 Simulate.m2 Simulate.L1 Simulate.L2 Simulate.g
       Simulate.theta1 Simulate.theta2 Simulate.dtheta1 Simulate.dtheta2
       Simulate.dt Simulate.steps
       frame_state console scheduled x1 y1 x2 y2 px py].

Ltac js_arith :=
  cbn [JS.add JS.sub JS.mul JS.neg JS.sin JS.cos JS.pow JS.abs JS.PI
       JS.max JS.min JS.hypot JS.atan2].

Ltac js_eval := js_fields; js_arith.

(* ------------------------------------------------------------------ *)
(** ** Arithmetic on finite values *)

Lemma Rsign_pos (r : R) : 0 < r -> JS.Rsign r = Gt.
Proof.
  intros H. unfold JS.Rsign.
  destruct (total_order_T r 0) as [[Hlt | Heq] | Hgt]; try reflexivity; lra.
Qed.

Lemma Rsign_neg (r : R) : r < 0 -> JS.Rsign r = Lt.
Proof.
  intros H. unfold JS.Rsign.
  destruct (total_order_T r 0) as [[Hlt | Heq] | Hgt]; try reflexivity; lra.
Qed.

Lemma Rsign_zero : JS.Rsign 0 = Eq.
Proof.
  unfold JS.Rsign.
  destruct (total_order_T 0 0) as [[Hlt | Heq] | Hgt]; try reflexivity; lra.
Qed.

Lemma div_Fin (x y : R) : y <> 0 -> JS.div (Fin x) (Fin y) = Fin (x / y).
Proof.
  intros H. unfold JS.div. destruct (Req_dec_T y 0); [contradiction | reflexivity].
Qed.

Lemma div_zero_zero : JS.div (Fin 0) (Fin 0) = NaN.
Proof.
  unfold JS.div. destruct (Req_dec_T 0 0) as [_ | H]; [| now elim H].
  now rewrite Rsign_zero.
Qed.

Lemma rem_Fin (x y : R) :
  y <> 0 -> JS.rem (Fin x) (Fin y) = Fin (x - y * JS.Rtrunc (x / y)).
Proof.
  intros H. unfold JS.rem. destruct (Req_dec_T y 0); [contradiction | reflexivity].
Qed.

Lemma ltb_Fin (x y : R) : JS.ltb (Fin x) (Fin y) = true <-> x < y.
Proof.
  unfold JS.ltb. destruct (Rlt_dec x y); split; intros; try assumption;
    try reflexivity; try discriminate; contradiction.
Qed.

Lemma ltb_Fin_false (x y : R) : JS.ltb (Fin x) (Fin y) = false <-> y <= x.
Proof.
  unfold JS.ltb. destruct (Rlt_dec x y); split; intros; try reflexivity;
    try discriminate; lra.
Qed.

Lemma Int_part_unit (x : R) : 0 <= x < 1 -> Int_part x = 0%Z.
Proof.
  intros [H0 H1]. destruct (base_Int_part x) as [Hlo Hhi].
  assert (Hl : (-1 < Int_part x)%Z) by (apply lt_IZR; lra).
  assert (Hu : (Int_part x < 1)%Z) by (apply lt_IZR; lra).
  lia.
Qed.

Lemma Rtrunc_unit (x : R) : -1 < x < 1 -> JS.Rtrunc x = 0.
Proof.
  intros [Hlo Hhi]. unfold JS.Rtrunc. destruct (Rlt_dec x 0).
  - rewrite Int_part_unit by lra. simpl. lra.
  - rewrite Int_part_unit by lra. reflexivity.
Qed.

(** For a non-negative dividend and a positive divisor the remainder lies
    in [[0, y)]. *)
Lemma rem_nonneg_range (x y : R) :
  0 <= x -> 0 < y -> 0 <= x - y * JS.Rtrunc (x / y) < y.
Proof.
  intros Hx Hy.
  assert (Hq : 0 <= x / y) by (apply Rmult_le_pos; [lra | left; now apply Rinv_0_lt_compat]).
  unfold JS.Rtrunc. destruct (Rlt_dec (x / y) 0) as [Hn | _]; [lra |].
  destruct (base_Int_part (x / y)) as [Hlo Hhi].
  set (k := IZR (Int_part (x / y))) in *.
  assert (Hx' : x = y * (x / y)) by (field; lra).
  split.
  - assert (y * k <= y * (x / y)) by (apply Rmult_le_compat_l; lra). lra.
  - assert (y * (x / y) < y * (k + 1)) by (apply Rmult_lt_compat_l; lra). lra.
Qed.

(** The special values behave as in the language: [1/0] is [Infinity],
    [0/0] is [NaN], and [Math.max], [Math.min], [Math.acos] and the
    comparisons do not recover from [NaN]. *)
Example one_over_zero : JS.div (Fin 1) (Fin 0) = PInf.
Proof.
  unfold JS.div. destruct (Req_dec_T 0 0) as [_ | H]; [| now elim H].
  rewrite Rsign_pos by lra. reflexivity.
Qed.

Example clamp_of_NaN : JS.acos (JS.min (Fin 1) (JS.max (Fin (-1)) NaN)) = NaN.
Proof. reflexivity. Qed.

Example NaN_compares_false (a : num) :
  JS.ltb NaN a = false /\ JS.gtb NaN a = false.
Proof. destruct a; split; reflexivity. Qed.

(** The remainder has the sign of the dividend: [-1 % 2] is [-1]. *)
Example rem_negative_dividend : JS.rem (Fin (-1)) (Fin 2) = Fin (-1).
Proof.
  rewrite rem_Fin by lra. f_equal.
  rewrite Rtrunc_unit by lra. lra.
Qed.

Lemma Rdiv_unique (a b c : R) : b <> 0 -> a = c * b -> a / b = c.
Proof. intros Hb ->. field. exact Hb. Qed.

(* ------------------------------------------------------------------ *)
(** ** Dragging bob 1 *)

(** C4, as amended: for every pointer position, a move event while bob 1
    is grabbed sets [theta1] to [atan2(x, y)] of the pointer in simulation
    coordinates and sets [dtheta1] to zero; [theta2] and [dtheta2] keep
    their values. *)
Theorem drag_bob1_resolves (L1 L2 width : num) (state : State.t)
    (offsetX offsetY : num) :
  let q := Pointer.screenToSim width offsetX offsetY in
  Pointer.onmousemove (Some M1) L1 L2 width state offsetX offsetY
  = State.mk (JS.atan2 (px q) (py q)) (State.theta2 state)
      0 (State.dtheta2 state).
Proof. reflexivity. Qed.

(** C4 fails as stated: with bob 2 swinging at one radian per second, a
    move event on bob 1 leaves [dtheta2] at one, not at zero. *)
Lemma drag_bob1_dtheta2_survives :
  State.dtheta2
    (Pointer.onmousemove (Some M1) 100 50 600 (State.mk 0 0 0 1) 300 200)
  <> Fin 0.
Proof.
  cbn [Pointer.onmousemove]. js_fields.
  intros H. injection H as H. lra.
Qed.

(* ------------------------------------------------------------------ *)
(** ** The integration scheme *)

Lemma App_step_unfold (st : App.Settings) (dt : num) (s : State.t) :
  let s' := App.advance (App.damping st) dt
              (App.ddtheta1 st s) (App.ddtheta2 st s) s in
  App.step st dt s
  = State.mk (App.wrap (State.theta1 s')) (App.wrap (State.theta2 s'))
      (State.dtheta1 s') (State.dtheta2 s').
Proof. reflexivity. Qed.

Lemma PlotApp_step_unfold (st : PlotApp.Settings) (dt : num) (s : State.t) :
  let s' := App.advance (PlotApp.damping st) dt
              (PlotApp.ddtheta1 st s) (PlotApp.ddtheta2 st s) s in
  PlotApp.step st dt s
  = State.mk (App.wrap (State.theta1 s')) (App.wrap (State.theta2 s'))
      (State.dtheta1 s') (State.dtheta2 s').
Proof. reflexivity. Qed.

Lemma advance_semi_implicit (damping dt a1 a2 : num) (s : State.t) :
  semi_implicit damping dt a1 a2 s (App.advance damping dt a1 a2 s).
Proof. repeat split. Qed.

(** The accelerations of the inline engines read [damping] nowhere. *)
Lemma App_acceleration_ignores_damping (st : App.Settings) (d : num)
    (s : State.t) :
  let st' := App.mkSettings (App.speed st) (App.m1 st) (App.m2 st)
               (App.L1 st) (App.L2 st) (App.g st) d in
  App.ddtheta1 st' s = App.ddtheta1 st s
  /\ App.ddtheta2 st' s = App.ddtheta2 st s.
Proof. split; reflexivity. Qed.

(** The terms of [updateState] that precede the added ones read neither
    [damping] nor the stiffness coefficients. *)
Lemma Update_plain_ignores_added (st : PlotApp.Settings) (d c1 c2 : num)
    (s : State.t) :
  let st' := PlotApp.mkSettings (PlotApp.speed st) (PlotApp.m1 st)
               (PlotApp.m2 st) (PlotApp.L1 st) (PlotApp.L2 st)
               (PlotApp.g st) d c1 c2 in
  PlotApp.Update.ddtheta1_plain s st' = PlotApp.Update.ddtheta1_plain s st
  /\ PlotApp.Update.ddtheta2_plain s st' = PlotApp.Update.ddtheta2_plain s st
  /\ PlotApp.Update.den s st' = PlotApp.Update.den s st.
Proof. repeat split. Qed.

(** C2, as amended: the inline engine of [drawFrame] (either application)
    updates each velocity as [dtheta + (ddtheta - damping*dtheta)*dt] with
    accelerations that do not depend on [damping], then each angle from the
    updated velocity, and stores the angle wrapped.  [updateState] updates
    each velocity as [dtheta + ddtheta*dt] and each angle from the updated
    velocity, and its damping sits inside the acceleration numerator, as
    the last term [- damping*dtheta]. *)
Theorem integration_scheme (dt : num) (s : State.t) :
  (forall st : App.Settings,
     exists s',
       semi_implicit (App.damping st) dt (App.ddtheta1 st s)
         (App.ddtheta2 st s) s s'
       /\ App.step st dt s
          = State.mk (App.wrap (State.theta1 s')) (App.wrap (State.theta2 s'))
              (State.dtheta1 s') (State.dtheta2 s')
       /\ forall d,
            let st' := App.mkSettings (App.speed st) (App.m1 st) (App.m2 st)
                         (App.L1 st) (App.L2 st) (App.g st) d in
            App.ddtheta1 st' s = App.ddtheta1 st s
            /\ App.ddtheta2 st' s = App.ddtheta2 st s)
  /\ (forall st : PlotApp.Settings,
        exists s',
          semi_implicit (PlotApp.damping st) dt (PlotApp.ddtheta1 st s)
            (PlotApp.ddtheta2 st s) s s'
          /\ PlotApp.step st dt s
             = State.mk (App.wrap (State.theta1 s'))
                 (App.wrap (State.theta2 s'))
                 (State.dtheta1 s') (State.dtheta2 s'))
  /\ (forall st : PlotApp.Settings,
        let s' := PlotApp.updateState s dt st in
        (State.dtheta1 s'
         = State.dtheta1 s + PlotApp.Update.ddtheta1 s st * dt
         /\ State.dtheta2 s'
            = State.dtheta2 s + PlotApp.Update.ddtheta2 s st * dt
         /\ State.theta1 s' = State.theta1 s + State.dtheta1 s' * dt
         /\ State.theta2 s' = State.theta2 s + State.dtheta2 s' * dt
         /\ PlotApp.Update.ddtheta1_num s st
            = PlotApp.Update.ddtheta1_plain s st
              - PlotApp.k1 st * State.theta1 s
              - PlotApp.damping st * State.dtheta1 s
         /\ PlotApp.Update.ddtheta2_num s st
            = PlotApp.Update.ddtheta2_plain s st
              - PlotApp.k2 st * State.theta2 s
              - PlotApp.damping st * State.dtheta2 s)%js).
Proof.
  split; [| split].
  - intros st. eexists. split; [apply advance_semi_implicit |].
    split; [apply App_step_unfold |].
    intros d. apply App_acceleration_ignores_damping.
  - intros st. eexists. split; [apply advance_semi_implicit |].
    apply PlotApp_step_unfold.
  - intros st. repeat split.
Qed.

(** The acceleration of [updateState] on link 1 when link 1 turns at one
    radian per second through the vertical, with the default settings. *)
Lemma Update_ddtheta1_through_vertical :
  PlotApp.Update.ddtheta1 (State.mk 0 0 1 0) PlotApp_defaults
  = Fin (- (1 / 100000000)).
Proof.
  unfold PlotApp.Update.ddtheta1, PlotApp.Update.ddtheta1_num,
    PlotApp.Update.ddtheta1_plain, PlotApp.Update.den, PlotApp_defaults.
  js_eval.
  replace (0 + - 0) with 0 by lra.
  replace (0 + - (2 * 0)) with 0 by lra.
  rewrite sin_0, cos_0.
  rewrite div_Fin by lra.
  f_equal. apply Rdiv_unique; lra.
Qed.

(** C2 fails as stated on [updateState]: with the default settings
    ([damping = 0.01]), link 1 turning at one radian per second through the
    vertical and [dt = 1], the stored velocity is not
    [dtheta + (ddtheta - damping*dtheta)*dt], and the acceleration does
    depend on [damping]. *)
Lemma updateState_damping_in_numerator :
  let s := State.mk 0 0 1 0 in
  let st := PlotApp_defaults in
  ~ semi_implicit (PlotApp.damping st) 1 (PlotApp.Update.ddtheta1 s st)
      (PlotApp.Update.ddtheta2 s st) s (PlotApp.updateState s 1 st)
  /\ PlotApp.Update.ddtheta1 s st
     <> PlotApp.Update.ddtheta1 s
          (PlotApp.mkSettings 1 100 50 100 50 9.81 0 0 0).
Proof.
  cbv zeta. split.
  - intros [H _]. revert H.
    unfold PlotApp.updateState. js_fields.
    rewrite Update_ddtheta1_through_vertical.
    unfold PlotApp_defaults. js_eval.
    intros H. injection H as H. lra.
  - rewrite Update_ddtheta1_through_vertical.
    unfold PlotApp.Update.ddtheta1, PlotApp.Update.ddtheta1_num,
      PlotApp.Update.ddtheta1_plain, PlotApp.Update.den.
    js_eval.
    replace (0 + - 0) with 0 by lra.
    replace (0 + - (2 * 0)) with 0 by lra.
    rewrite sin_0, cos_0.
    rewrite div_Fin by lra.
    intros H. injection H as H.
    symmetry in H.
    match type of H with
    | ?a / ?b = _ => rewrite (Rdiv_unique a b 0) in H by lra
    end.
    lra.
Qed.

(* ------------------------------------------------------------------ *)
(** ** Stiffness terms *)

(** C3, as amended: the numerators of [updateState] are the plain terms
    (which read no stiffness coefficient) minus [k1*theta1], respectively
    minus [k2*theta2], followed by the damping term.  The numerators of
    the inline engine of the plotting application are those of the canvas
    application (which has no stiffness) minus [k1*theta1], respectively
    minus [k2*(theta2 - theta1)]. *)
Theorem stiffness_terms (s : State.t) (st : PlotApp.Settings) :
  (PlotApp.Update.ddtheta1_num s st
   = PlotApp.Update.ddtheta1_plain s st
     - PlotApp.k1 st * State.theta1 s
     - PlotApp.damping st * State.dtheta1 s
   /\ PlotApp.Update.ddtheta2_num s st
      = PlotApp.Update.ddtheta2_plain s st
        - PlotApp.k2 st * State.theta2 s
        - PlotApp.damping st * State.dtheta2 s
   /\ (forall d c1 c2,
         let st' := PlotApp.mkSettings (PlotApp.speed st) (PlotApp.m1 st)
                      (PlotApp.m2 st) (PlotApp.L1 st) (PlotApp.L2 st)
                      (PlotApp.g st) d c1 c2 in
         PlotApp.Update.ddtheta1_plain s st'
         = PlotApp.Update.ddtheta1_plain s st
         /\ PlotApp.Update.ddtheta2_plain s st'
            = PlotApp.Update.ddtheta2_plain s st)
   /\ PlotApp.ddtheta1_num st s
      = App.ddtheta1_num (PlotApp.without_stiffness st) s
        - PlotApp.k1 st * State.theta1 s
   /\ PlotApp.ddtheta2_num st s
      = App.ddtheta2_num (PlotApp.without_stiffness st) s
        - PlotApp.k2 st * (State.theta2 s - State.theta1 s))%js.
Proof.
  repeat split.
Qed.

(** C3 fails as stated on the inline engine of the plotting application:
    with [k2 = 1], link 1 at one radian and link 2 vertical, the numerator
    of [ddtheta2] is not the stiffness-free numerator minus [k2*theta2]. *)
Lemma inline_k2_acts_on_relative_angle :
  let s := State.mk 1 0 0 0 in
  let st := PlotApp.mkSettings 1 100 50 100 50 9.81 0.01 0 1 in
  PlotApp.ddtheta2_num st s
  <> (App.ddtheta2_num (PlotApp.without_stiffness st) s
      - PlotApp.k2 st * State.theta2 s)%js.
Proof.
  cbv zeta.
  unfold PlotApp.ddtheta2_num, App.ddtheta2_num, PlotApp.delta, App.delta.
  js_eval.
  intros H. injection H as H. lra.
Qed.

(* ------------------------------------------------------------------ *)
(** ** Angle wrapping *)

Lemma two_PI_neq_0 : 2 * PI <> 0.
Proof. pose proof PI_RGT_0. lra. Qed.

Lemma wrap_Fin (r : R) :
  App.wrap (Fin r)
  = Fin (r + PI - 2 * PI * JS.Rtrunc ((r + PI) / (2 * PI)) + - PI).
Proof.
  unfold App.wrap. js_arith. rewrite rem_Fin by apply two_PI_neq_0.
  js_arith. reflexivity.
Qed.

(** From [-pi] upwards the wrap lands in [[-pi, pi)]. *)
Lemma wrap_range (r : R) : - PI <= r -> in_co (- PI) PI (App.wrap (Fin r)).
Proof.
  intros Hr. rewrite wrap_Fin. eexists. split; [reflexivity |].
  pose proof PI_RGT_0 as Hpi.
  pose proof (rem_nonneg_range (r + PI) (2 * PI)) as H.
  lra.
Qed.

(** Between [-3*pi] and [-pi] the wrap changes nothing: the remainder of a
    negative dividend is negative. *)
Lemma wrap_below_range (r : R) :
  - (3 * PI) < r < - PI -> App.wrap (Fin r) = Fin r.
Proof.
  intros Hr. rewrite wrap_Fin. f_equal.
  pose proof PI_RGT_0 as Hpi.
  rewrite Rtrunc_unit; [lra |].
  assert (Hinv : 0 < / (2 * PI)) by (apply Rinv_0_lt_compat; lra).
  assert (E : (r + PI) / (2 * PI) + 1 = (r + 3 * PI) * / (2 * PI))
    by (field; lra).
  split.
  - assert (0 < (r + 3 * PI) * / (2 * PI))
      by (apply Rmult_lt_0_compat; lra).
    lra.
  - assert (0 < (- (r + PI)) * / (2 * PI))
      by (apply Rmult_lt_0_compat; lra).
    unfold Rdiv. lra.
Qed.

Lemma wrap_minus_PI : App.wrap (Fin (- PI)) = Fin (- PI).
Proof.
  rewrite wrap_Fin. f_equal.
  replace (- PI + PI) with 0 by lra.
  unfold Rdiv. rewrite Rmult_0_l, Rtrunc_unit by lra. lra.
Qed.

(** A pendulum at rest with both links at the same angle stays there when
    gravity exerts no torque ([g * sin a = 0]): the four assignments of the
    inline engine change nothing. *)
Lemma App_advance_at_rest (sp m1 m2 L1 L2 g d dt a : R) :
  g * sin a = 0 -> m1 <> 0 -> L1 <> 0 -> L2 <> 0 ->
  let st := App.mkSettings sp m1 m2 L1 L2 g d in
  App.advance d dt (App.ddtheta1 st (at_rest a)) (App.ddtheta2 st (at_rest a))
    (at_rest a)
  = at_rest a.
Proof.
  intros Hg Hm HL1 HL2 st.
  assert (Hden : 2 * m1 + m2 + - (m2 * cos (2 * (a + - a))) = 2 * m1).
  { replace (2 * (a + - a)) with 0 by lra. rewrite cos_0. lra. }
  unfold App.advance, App.ddtheta1, App.ddtheta2, App.ddtheta1_num,
    App.ddtheta2_num, App.denom, App.delta, at_rest, st.
  js_eval. rewrite Hden.
  assert (H1 : L1 * (2 * m1) <> 0)
    by (apply Rmult_integral_contrapositive_currified; lra).
  assert (H2 : L2 * (2 * m1) <> 0)
    by (apply Rmult_integral_contrapositive_currified; lra).
  rewrite !div_Fin by assumption. js_eval.
  replace (a + - (2 * a)) with (- a) by lra.
  replace (a + - a) with 0 by lra.
  rewrite sin_neg, sin_0.
  assert (E1 : forall u v w : R,
             (- g * (2 * m1 + m2) * sin a + - (m2 * g * - sin a)
              + - (2 * 0 * m2 * u)) / v + - (d * 0) = w -> w = 0).
  { intros u v w <-.
    replace (- g * (2 * m1 + m2) * sin a + - (m2 * g * - sin a)
             + - (2 * 0 * m2 * u))
      with (- (2 * m1) * (g * sin a)) by ring.
    rewrite Hg. unfold Rdiv. ring. }
  assert (E2 : forall u v w : R, 2 * 0 * u / v + - (d * 0) = w -> w = 0).
  { intros u v w <-. unfold Rdiv. ring. }
  f_equal; f_equal.
  - erewrite (E1 _ _ _ eq_refl). ring.
  - erewrite (E2 _ _ _ eq_refl). ring.
  - erewrite (E1 _ _ _ eq_refl). ring.
  - erewrite (E2 _ _ _ eq_refl). ring.
Qed.

Lemma App_fixedDt : App.fixedDt = Fin (1 / 20).
Proof. unfold App.fixedDt. apply div_Fin. lra. Qed.

Lemma App_drawFrame_state (st : App.Settings) (target : DragTarget)
    (s : State.t) :
  frame_state (App.drawFrame st target s)
  = match target with
    | None => App.step st (App.fixedDt * App.speed st)%js s
    | Some _ => s
    end.
Proof.
  unfold App.drawFrame. cbv zeta.
  match goal with |- context [if ?c then _ else _] => destruct c end;
    reflexivity.
Qed.

(** One free-running frame of the canvas application, default settings,
    from rest at an angle whose sine vanishes: the stored angles are the
    wrap of that angle. *)
Lemma App_frame_at_rest (a : R) :
  sin a = 0 ->
  frame_state (App.drawFrame App_defaults None (at_rest a))
  = State.mk (App.wrap a) (App.wrap a) 0 0.
Proof.
  intros Hs. rewrite App_drawFrame_state, App_step_unfold. cbv zeta.
  rewrite App_fixedDt. unfold App_defaults. js_eval.
  rewrite (App_advance_at_rest 1 100 50 100 50 9.81 0.01 (1 / 20 * 1) a)
    by (try rewrite Hs; lra).
  reflexivity.
Qed.

(** A pendulum whose two links are at the same angle [a], with gravity
    exerting no torque there ([g * sin a = 0]), feels no acceleration
    whatever its velocities: the four assignments of the inline engine only
    damp the velocities and advance the angles. *)
Lemma App_advance_aligned (sp m1 m2 L1 L2 g d dt a w1 w2 : R) :
  g * sin a = 0 -> m1 <> 0 -> L1 <> 0 -> L2 <> 0 ->
  let st := App.mkSettings sp m1 m2 L1 L2 g d in
  let s := State.mk a a w1 w2 in
  App.advance d dt (App.ddtheta1 st s) (App.ddtheta2 st s) s
  = State.mk (Fin (a + (w1 - d * w1 * dt) * dt))
             (Fin (a + (w2 - d * w2 * dt) * dt))
             (Fin (w1 - d * w1 * dt)) (Fin (w2 - d * w2 * dt)).
Proof.
  intros Hg Hm HL1 HL2 st s.
  assert (Hden : 2 * m1 + m2 + - (m2 * cos (2 * (a + - a))) = 2 * m1).
  { replace (2 * (a + - a)) with 0 by lra. rewrite cos_0. lra. }
  unfold App.advance, App.ddtheta1, App.ddtheta2, App.ddtheta1_num,
    App.ddtheta2_num, App.denom, App.delta, s, st.
  js_eval. rewrite Hden.
  assert (H1 : L1 * (2 * m1) <> 0)
    by (apply Rmult_integral_contrapositive_currified; lra).
  assert (H2 : L2 * (2 * m1) <> 0)
    by (apply Rmult_integral_contrapositive_currified; lra).
  rewrite !div_Fin by assumption. js_eval.
  replace (a + - (2 * a)) with (- a) by lra.
  replace (a + - a) with 0 by lra.
  rewrite sin_neg, sin_0.
  assert (E1 : forall u v : R,
             (- g * (2 * m1 + m2) * sin a + - (m2 * g * - sin a)
              + - (2 * 0 * m2 * u)) / v = 0).
  { intros u v.
    replace (- g * (2 * m1 + m2) * sin a + - (m2 * g * - sin a)
             + - (2 * 0 * m2 * u))
      with (- (2 * m1) * (g * sin a)) by ring.
    rewrite Hg. unfold Rdiv. ring. }
  assert (E2 : forall u v : R, 2 * 0 * u / v = 0).
  { intros u v. unfold Rdiv. ring. }
  rewrite E1, E2.
  f_equal; f_equal; ring.
Qed.

(** C1, as amended: after one step of the inline engine, each angle whose
    own value before the wrap is a finite number not below [-pi] is stored
    in [[-pi, pi)], whatever the other angle is; and [updateState] always
    stores [theta + dtheta'*dt] as it is, without a wrap. *)
Theorem step_angles_wrapped (st : App.Settings) (dt : num) (s : State.t) :
  let s' := App.advance (App.damping st) dt
              (App.ddtheta1 st s) (App.ddtheta2 st s) s in
  (forall r1 : R, State.theta1 s' = Fin r1 -> - PI <= r1 ->
     in_co (- PI) PI (State.theta1 (App.step st dt s)))
  /\ (forall r2 : R, State.theta2 s' = Fin r2 -> - PI <= r2 ->
        in_co (- PI) PI (State.theta2 (App.step st dt s)))
  /\ forall st' : PlotApp.Settings,
       let u := PlotApp.updateState s dt st' in
       (State.theta1 u = State.theta1 s + State.dtheta1 u * dt
        /\ State.theta2 u = State.theta2 s + State.dtheta2 u * dt)%js.
Proof.
  intros s'. split; [| split].
  - intros r1 E1 H1. rewrite App_step_unfold. cbv zeta. fold s'. js_fields.
    rewrite E1. now apply wrap_range.
  - intros r2 E2 H2. rewrite App_step_unfold. cbv zeta. fold s'. js_fields.
    rewrite E2. now apply wrap_range.
  - intros st'. split; reflexivity.
Qed.

(** The inline engine of the plotting application wraps in the same way. *)
Lemma PlotApp_angles_after_step (st : PlotApp.Settings) (dt : num)
    (s : State.t) :
  let s' := App.advance (PlotApp.damping st) dt
              (PlotApp.ddtheta1 st s) (PlotApp.ddtheta2 st s) s in
  (forall r1 : R, State.theta1 s' = Fin r1 -> - PI <= r1 ->
     in_co (- PI) PI (State.theta1 (PlotApp.step st dt s)))
  /\ (forall r2 : R, State.theta2 s' = Fin r2 -> - PI <= r2 ->
        in_co (- PI) PI (State.theta2 (PlotApp.step st dt s))).
Proof.
  intros s'. split; intros r E Hr;
    rewrite PlotApp_step_unfold; cbv zeta; fold s'; js_fields;
    rewrite E; now apply wrap_range.
Qed.

(** The pendulum hanging straight down and spinning at 100 rad/s: before
    the wrap the first angle is 4.9975, beyond [pi]; the step stores it in
    [[-pi, pi)]. *)
Lemma step_angles_wrapped_witness :
  in_co (- PI) PI
    (State.theta1
       (App.step App_defaults (Fin (1 / 20)) (State.mk 0 0 100 (Fin (- 100))))).
Proof.
  pose proof PI_RGT_0 as Hpi.
  refine (proj1 (step_angles_wrapped App_defaults (Fin (1 / 20))
                   (State.mk 0 0 100 (Fin (- 100))))
            (0 + (100 - 0.01 * 100 * (1 / 20)) * (1 / 20)) _ _).
  - unfold App_defaults. js_fields.
    rewrite (App_advance_aligned 1 100 50 100 50 9.81 0.01 (1 / 20) 0
               100 (- 100))
      by (try rewrite sin_0; lra).
    reflexivity.
  - lra.
Defined.

Lemma sin_minus_PI : sin (- PI) = 0.
Proof. rewrite sin_neg, sin_PI. lra. Qed.

Lemma sin_minus_2PI : sin (- (2 * PI)) = 0.
Proof. rewrite sin_neg, sin_2PI. lra. Qed.

(** C1 fails as stated: a free-running frame from rest at [-pi] stores
    [-pi], the excluded end of [(-pi, pi]]; and one from rest at [-2*pi]
    stores [-2*pi], because the remainder of a negative dividend is
    negative. *)
Lemma wrap_misses_half_open_interval :
  ~ in_oc (- PI) PI
      (State.theta1
         (frame_state (App.drawFrame App_defaults None (at_rest (- PI)))))
  /\ ~ in_oc (- PI) PI
         (State.theta1
            (frame_state
               (App.drawFrame App_defaults None (at_rest (- (2 * PI)))))).
Proof.
  pose proof PI_RGT_0 as Hpi. split.
  - rewrite (App_frame_at_rest _ sin_minus_PI). js_fields.
    rewrite wrap_minus_PI. intros [r [E Hr]]. injection E as <-. lra.
  - rewrite (App_frame_at_rest _ sin_minus_2PI). js_fields.
    rewrite wrap_below_range by lra.
    intros [r [E Hr]]. injection E as <-. lra.
Qed.

(* ------------------------------------------------------------------ *)
(** ** Hit test on pointer-down *)

Lemma sqrt_Fin (r : R) : 0 <= r -> JS.sqrt (Fin r) = Fin (sqrt r).
Proof.
  intros H. unfold JS.sqrt. destruct (Rlt_dec r 0); [lra | reflexivity].
Qed.

(** C7: with [dist_i] the distance from the pointer to bob [i] and
    [r_i = sqrt(m_i) * 0.5], pointer-down selects bob 2 when
    [dist2 < r2 + 5], else bob 1 when [dist1 < r1 + 5], else nothing; when
    both bobs are in range it selects bob 2. *)
Theorem hit_test_priority (m1 m2 L1 L2 width : num) (state : State.t)
    (offsetX offsetY : num) :
  let p := Pointer.getBobPositions L1 L2 state in
  let q := Pointer.screenToSim width offsetX offsetY in
  let dist1 := JS.hypot (px q - x1 p) (py q - y1 p) in
  let dist2 := JS.hypot (px q - x2 p) (py q - y2 p) in
  let r1 := (JS.sqrt m1 * 0.5)%js in
  let r2 := (JS.sqrt m2 * 0.5)%js in
  let hit := Pointer.onmousedown m1 m2 L1 L2 width state offsetX offsetY in
  ((dist2 <? r2 + 5)%js = true -> hit = Some M2)
  /\ ((dist2 <? r2 + 5)%js = false -> (dist1 <? r1 + 5)%js = true ->
      hit = Some M1)
  /\ ((dist2 <? r2 + 5)%js = false -> (dist1 <? r1 + 5)%js = false ->
      hit = None)
  /\ ((dist1 <? r1 + 5)%js = true -> (dist2 <? r2 + 5)%js = true ->
      hit = Some M2).
Proof.
  cbv zeta. unfold Pointer.onmousedown. cbv zeta.
  repeat split.
  - intros ->. reflexivity.
  - intros -> ->. reflexivity.
  - intros -> ->. reflexivity.
  - intros _ ->. reflexivity.
Qed.

(** Both bobs at [(0, 100)] with pick radius 5 (link 2 of length zero,
    masses of 100), a click at [(0, 100)]: bob 2 is selected. *)
Lemma hit_test_priority_witness :
  Pointer.onmousedown 100 100 100 0 600 (at_rest 0) 300 200 = Some M2.
Proof.
  refine (proj2 (proj2 (proj2
    (hit_test_priority 100 100 100 0 600 (at_rest 0) 300 200))) _ _).
  - unfold Pointer.getBobPositions, Pointer.screenToSim, at_rest.
    js_eval. rewrite div_Fin, sqrt_Fin by lra. js_eval.
    apply ltb_Fin. rewrite sin_0, cos_0.
    match goal with |- sqrt ?e < _ => replace e with 0 by (unfold Rdiv; field) end.
    rewrite sqrt_0. pose proof (sqrt_pos 100). lra.
  - unfold Pointer.getBobPositions, Pointer.screenToSim, at_rest.
    js_eval. rewrite div_Fin, sqrt_Fin by lra. js_eval.
    apply ltb_Fin. rewrite sin_0, cos_0.
    match goal with |- sqrt ?e < _ => replace e with 0 by (unfold Rdiv; field) end.
    rewrite sqrt_0. pose proof (sqrt_pos 100). lra.
Defined.

(* ------------------------------------------------------------------ *)
(** ** The divergence guard *)

(** C6: when, after the step of a frame, [|x1| > 10000] or [|x2| > 10000]
    for the bob positions of the new state, the frame logs the warning
    and does not schedule another frame. *)
Theorem divergence_stops_the_loop (st : App.Settings) (target : DragTarget)
    (s : State.t) :
  let f := App.drawFrame st target s in
  let p := Pointer.getBobPositions (App.L1 st) (App.L2 st) (frame_state f) in
  (JS.abs (x1 p) >? 10000)%js || (JS.abs (x2 p) >? 10000)%js = true ->
  console f = [exploded] /\ scheduled f = false.
Proof.
  cbv zeta. rewrite App_drawFrame_state. unfold App.drawFrame. cbv zeta.
  intros ->. split; reflexivity.
Qed.

(** Otherwise the frame logs nothing and schedules the next one. *)
Lemma no_divergence_continues (st : App.Settings) (target : DragTarget)
    (s : State.t) :
  let f := App.drawFrame st target s in
  let p := Pointer.getBobPositions (App.L1 st) (App.L2 st) (frame_state f) in
  (JS.abs (x1 p) >? 10000)%js || (JS.abs (x2 p) >? 10000)%js = false ->
  console f = [] /\ scheduled f = true.
Proof.
  cbv zeta. rewrite App_drawFrame_state. unfold App.drawFrame. cbv zeta.
  intros ->. split; reflexivity.
Qed.

(** Inside [[-pi, pi)] the wrap changes nothing. *)
Lemma wrap_in_range (r : R) : - PI <= r < PI -> App.wrap (Fin r) = Fin r.
Proof.
  intros Hr. rewrite wrap_Fin. f_equal.
  pose proof PI_RGT_0 as Hpi.
  rewrite Rtrunc_unit; [lra |].
  assert (Hinv : 0 < / (2 * PI)) by (apply Rinv_0_lt_compat; lra).
  split.
  - assert (0 <= (r + PI) * / (2 * PI))
      by (apply Rmult_le_pos; lra).
    unfold Rdiv. lra.
  - assert (E : 1 - (r + PI) / (2 * PI) = (PI - r) * / (2 * PI))
      by (field; lra).
    assert (0 < (PI - r) * / (2 * PI))
      by (apply Rmult_lt_0_compat; lra).
    lra.
Qed.

(** A frame that trips the guard: links of length 20000 and 50 held
    horizontal with gravity switched off. *)
Lemma divergence_stops_the_loop_witness :
  console (App.drawFrame (App.mkSettings 1 100 50 20000 50 0 0.01) None
             (at_rest (PI / 2)))
  = [exploded]
  /\ scheduled (App.drawFrame (App.mkSettings 1 100 50 20000 50 0 0.01) None
                  (at_rest (PI / 2)))
     = false.
Proof.
  pose proof PI_RGT_0 as Hpi.
  apply divergence_stops_the_loop.
  rewrite App_drawFrame_state, App_step_unfold. cbv zeta.
  rewrite App_fixedDt. js_eval.
  rewrite (App_advance_at_rest 1 100 50 20000 50 0 0.01 (1 / 20 * 1) (PI / 2))
    by lra.
  unfold at_rest. js_fields. rewrite wrap_in_range by lra.
  unfold Pointer.getBobPositions. js_eval. rewrite sin_PI2.
  apply orb_true_iff. left. unfold JS.gtb. apply ltb_Fin.
  rewrite Rabs_right; lra.
Defined.

(* ------------------------------------------------------------------ *)
(** ** Purity of [updateState] *)

Lemma nth_error_snoc_old {A : Type} (l : list A) (x : A) (a : nat) :
  (a < length l)%nat -> nth_error (l ++ [x]) a = nth_error l a.
Proof. intros H. now apply nth_error_app1. Qed.

Lemma nth_error_snoc_new {A : Type} (l : list A) (x : A) :
  nth_error (l ++ [x]) (length l) = Some x.
Proof.
  rewrite nth_error_app2 by lia. now rewrite Nat.sub_diag.
Qed.

Lemma put_same (h : list State.t) (a : nat) (o o' : State.t) :
  nth_error h a = Some o -> nth_error (Objects.put h a o') a = Some o'.
Proof.
  revert a. induction h as [| x h IH]; intros [| a] H; cbn in *;
    try discriminate; [reflexivity | now apply IH].
Qed.

Lemma put_put (h : list State.t) (a : nat) (o o' : State.t) :
  Objects.put (Objects.put h a o) a o' = Objects.put h a o'.
Proof.
  revert a. induction h as [| x h IH]; intros [| a]; cbn;
    try reflexivity. now rewrite IH.
Qed.

Lemma bind_get {B : Type} (a : nat) (f : Objects.Field)
    (k : num -> Objects.M B) (w : Objects.World) (o : State.t) :
  nth_error (Objects.heap w) a = Some o ->
  Objects.bind (Objects.get a f) k w = k (Objects.read f o) w.
Proof. intros H. unfold Objects.bind, Objects.get. now rewrite H. Qed.

Lemma bind_set {B : Type} (a : nat) (f : Objects.Field) (v : num)
    (k : unit -> Objects.M B) (w : Objects.World) (o : State.t) :
  nth_error (Objects.heap w) a = Some o ->
  Objects.bind (Objects.set a f v) k w
  = k tt (Objects.mkWorld
            (Objects.put (Objects.heap w) a (Objects.write f v o))
            (Objects.clock w) (Objects.randoms w) (Objects.drawn w)).
Proof. intros H. unfold Objects.bind, Objects.set. now rewrite H. Qed.

Lemma set_run (a : nat) (f : Objects.Field) (v : num) (w : Objects.World)
    (o : State.t) :
  nth_error (Objects.heap w) a = Some o ->
  Objects.set a f v w
  = Some (tt, Objects.mkWorld
                (Objects.put (Objects.heap w) a (Objects.write f v o))
                (Objects.clock w) (Objects.randoms w) (Objects.drawn w)).
Proof. intros H. unfold Objects.set. now rewrite H. Qed.

(** What a call of [updateState] does to the world: it reads its argument
    and appends one object, the value of the function on the fields read. *)
Lemma updateState_call_run (w : Objects.World) (a : nat) (obj : State.t)
    (dt : num) (settings : PlotApp.Settings) :
  nth_error (Objects.heap w) a = Some obj ->
  PlotApp.updateState_call a dt settings w
  = Some (length (Objects.heap w),
          Objects.mkWorld
            (Objects.heap w ++ [PlotApp.updateState obj dt settings])
            (Objects.clock w) (Objects.randoms w) (Objects.drawn w)).
Proof.
  intros H. unfold PlotApp.updateState_call.
  rewrite !(bind_get a _ _ w obj H). cbv zeta.
  destruct obj as [t1 t2 d1 d2]. reflexivity.
Qed.

Lemma alloc_untouched (w : Objects.World) (o : State.t) :
  untouched w (Objects.mkWorld (Objects.heap w ++ [o]) (Objects.clock w)
                 (Objects.randoms w) (Objects.drawn w)).
Proof.
  split; [| repeat split]. intros a x Hx. cbn [Objects.heap].
  rewrite nth_error_snoc_old; [exact Hx |].
  apply nth_error_Some. rewrite Hx. discriminate.
Qed.

(** The inline engine of [drawFrame], run on the store, overwrites the
    object behind [stateRef] with the result of the step. *)
Lemma step_in_place_run (st : App.Settings) (dt : num) (w : Objects.World)
    (a : nat) (obj : State.t) :
  nth_error (Objects.heap w) a = Some obj ->
  App.step_in_place st dt a w
  = Some (tt, Objects.mkWorld
                (Objects.put (Objects.heap w) a (App.step st dt obj))
                (Objects.clock w) (Objects.randoms w) (Objects.drawn w)).
Proof.
  intros H. destruct w as [h c r n]. cbn [Objects.heap Objects.clock
    Objects.randoms Objects.drawn] in *.
  unfold App.step_in_place.
  rewrite !(bind_get a _ _ (Objects.mkWorld h c r n) obj H). cbv zeta.
  repeat
    (first
       [ erewrite bind_get
           by (cbn [Objects.heap]; first [exact H | eapply put_same; exact H])
       | erewrite bind_set
           by (cbn [Objects.heap]; first [exact H | eapply put_same; exact H])
       | erewrite set_run
           by (cbn [Objects.heap]; first [exact H | eapply put_same; exact H])
       ];
     cbn [Objects.heap Objects.clock Objects.randoms Objects.drawn];
     rewrite ?put_put).
  destruct obj as [t1 t2 d1 d2]. reflexivity.
Qed.

(** Unlike [updateState], the inline engine changes the object it is
    given: after one step from the pendulum hanging down with
    [dtheta1 = 1], the object behind [stateRef] no longer has its old
    fields. *)
Lemma inline_step_assigns_in_place :
  let obj := State.mk 0 0 1 0 in
  let w := Objects.mkWorld [obj] 0 (fun _ => Fin 0) 0 in
  exists w',
    App.step_in_place App_defaults (Fin (1 / 20)) 0 w = Some (tt, w')
    /\ nth_error (Objects.heap w') 0 <> Some obj.
Proof.
  cbv zeta. eexists. split.
  - apply step_in_place_run. reflexivity.
  - cbn [Objects.heap Objects.put nth_error].
    rewrite App_step_unfold. cbv zeta. unfold App_defaults. js_fields.
    rewrite (App_advance_aligned 1 100 50 100 50 9.81 0.01 (1 / 20) 0 1 0)
      by (try rewrite sin_0; lra).
    js_fields. intros E. injection E as _ _ E _. lra.
Qed.

(** C9: a call of [updateState] on a state object returns an object whose
    fields depend only on the fields of its argument, [dt] and the
    settings: two calls on objects with the same fields return objects
    with the same fields (those of the function on the fields), whatever
    the clock, the random generator and the other objects of the two
    worlds are; and each call leaves every object that existed before it,
    its argument included, the clock and the random generator as they
    were. *)
Theorem updateState_deterministic_and_pure (w1 w2 : Objects.World)
    (a1 a2 : nat) (obj : State.t) (dt : num) (settings : PlotApp.Settings) :
  nth_error (Objects.heap w1) a1 = Some obj ->
  nth_error (Objects.heap w2) a2 = Some obj ->
  exists r1 w1' r2 w2',
    PlotApp.updateState_call a1 dt settings w1 = Some (r1, w1')
    /\ PlotApp.updateState_call a2 dt settings w2 = Some (r2, w2')
    /\ nth_error (Objects.heap w1') r1
       = Some (PlotApp.updateState obj dt settings)
    /\ nth_error (Objects.heap w2') r2 = nth_error (Objects.heap w1') r1
    /\ untouched w1 w1'
    /\ untouched w2 w2'.
Proof.
  intros E1 E2.
  rewrite (updateState_call_run w1 a1 obj dt settings E1),
          (updateState_call_run w2 a2 obj dt settings E2).
  do 4 eexists. split; [reflexivity |]. split; [reflexivity |].
  cbn [Objects.heap]. rewrite !nth_error_snoc_new.
  split; [reflexivity |]. split; [reflexivity |].
  split; apply alloc_untouched.
Qed.

Lemma updateState_deterministic_and_pure_witness :
  let w1 := Objects.mkWorld [initial_state] 0 (fun _ => Fin 0) 0 in
  let w2 := Objects.mkWorld [at_rest 0; initial_state] 1000
              (fun _ => Fin (1 / 2)) 3 in
  exists r1 w1' r2 w2',
    PlotApp.updateState_call 0 (Fin (1 / 60)) PlotApp_defaults w1
    = Some (r1, w1')
    /\ PlotApp.updateState_call 1 (Fin (1 / 60)) PlotApp_defaults w2
       = Some (r2, w2')
    /\ nth_error (Objects.heap w1') r1
       = Some (PlotApp.updateState initial_state (Fin (1 / 60))
                 PlotApp_defaults)
    /\ nth_error (Objects.heap w2') r2 = nth_error (Objects.heap w1') r1
    /\ untouched w1 w1'
    /\ untouched w2 w2'.
Proof.
  exact (updateState_deterministic_and_pure
           (Objects.mkWorld [initial_state] 0 (fun _ => Fin 0) 0)
           (Objects.mkWorld [at_rest 0; initial_state] 1000
              (fun _ => Fin (1 / 2)) 3)
           0 1 initial_state (Fin (1 / 60)) PlotApp_defaults
           eq_refl eq_refl).
Defined.

(* ------------------------------------------------------------------ *)
(** ** The batch simulator *)

Lemma get_push_old (l : list num) (v : num) (j : nat) :
  (j < length l)%nat -> JS.get (JS.push l v) j = JS.get l j.
Proof. intros H. unfold JS.get, JS.push. now apply app_nth1. Qed.

Lemma get_push_new (l : list num) (v : num) (i : nat) :
  length l = i -> JS.get (JS.push l v) i = v.
Proof.
  intros <-. unfold JS.get, JS.push. rewrite app_nth2 by lia.
  now rewrite Nat.sub_diag.
Qed.

Lemma length_push (l : list num) (v : num) :
  length (JS.push l v) = S (length l).
Proof. unfold JS.push. rewrite length_app. simpl. lia. Qed.

(** One pass of the recording half keeps the arrays in step. *)
Lemma record_extends (p : Simulate.PendulumParams) (i : nat)
    (tr : Simulate.Traces) :
  traces_upto p i tr ->
  traces_upto p (S i) (Simulate.record p i (state_after p (S i)) tr).
Proof.
  destruct tr as [[[a1 b1] a2] b2].
  intros (H1 & H2 & H3 & H4 & Hent).
  unfold Simulate.record, traces_upto.
  rewrite !length_push. repeat (split; [congruence |]).
  intros j Hj. cbv zeta.
  destruct (Nat.eq_dec j i) as [-> | Hne].
  - rewrite !get_push_new by assumption. repeat split.
  - assert (Hlt : (j < i)%nat) by lia.
    rewrite !get_push_old by lia.
    apply (Hent j Hlt).
Qed.

(** The first half of the loop body is one integration step. *)
Lemma integrate_is_undamped_step (p : Simulate.PendulumParams)
    (s : State.t) :
  Simulate.integrate p s
  = undamped_step (Simulate_settings p) (Simulate.dt p) s.
Proof. reflexivity. Qed.

(** The loop from index [i] with [m] passes to go. *)
Lemma loop_runs (p : Simulate.PendulumParams) (n : nat) :
  Simulate.steps p = Fin (INR n) ->
  forall (m i fuel : nat) (tr : Simulate.Traces),
    (i + m = n)%nat -> (m < fuel)%nat ->
    traces_upto p i tr ->
    exists tr',
      Simulate.loop fuel p i (state_after p i) tr = Some tr'
      /\ traces_upto p n tr'.
Proof.
  intros Hsteps m. induction m as [| m IH]; intros i fuel tr Hi Hfuel Htr.
  - destruct fuel as [| fuel]; [lia |].
    replace i with n in * by lia.
    exists tr. split; [| exact Htr].
    cbn [Simulate.loop]. rewrite Hsteps.
    assert (E : JS.ltb (Fin (INR n)) (Fin (INR n)) = false)
      by (apply ltb_Fin_false; lra).
    now rewrite E.
  - destruct fuel as [| fuel]; [lia |].
    cbn [Simulate.loop]. rewrite Hsteps.
    assert (E : JS.ltb (Fin (INR i)) (Fin (INR n)) = true)
      by (apply ltb_Fin; apply lt_INR; lia).
    rewrite E.
    rewrite integrate_is_undamped_step.
    change (undamped_step (Simulate_settings p) (Simulate.dt p)
              (state_after p i))
      with (state_after p (S i)).
    apply IH; [lia | lia |].
    now apply record_extends.
Qed.

(** C10: when [steps] is the natural number [n], the simulator returns
    (given fuel for its [n + 1] loop tests) four arrays of length [n] each,
    whose entries at index [i] are the bob positions
    [x1 = L1*sin(theta1)], [y1 = -L1*cos(theta1)],
    [x2 = x1 + L2*sin(theta2)], [y2 = y1 - L2*cos(theta2)] of the pendulum
    after [i + 1] integration steps: steps of size [dt] from the angles and
    velocities of the parameter record, each with the accelerations of the
    canvas engine, no damping and no wrap. *)
Theorem simulate_returns_n_positions (p : Simulate.PendulumParams)
    (n fuel : nat) :
  Simulate.steps p = Fin (INR n) -> (n < fuel)%nat ->
  exists tr,
    Simulate.simulateDoublePendulum fuel p = Some tr
    /\ traces_upto p n tr.
Proof.
  intros Hsteps Hfuel. unfold Simulate.simulateDoublePendulum.
  apply (loop_runs p n Hsteps n 0%nat fuel); [lia | exact Hfuel |].
  unfold traces_upto. simpl. repeat split; lia.
Qed.

Lemma simulate_returns_n_positions_witness :
  exists tr,
    Simulate.simulateDoublePendulum 301 animation_params = Some tr
    /\ traces_upto animation_params 300 tr.
Proof.
  apply simulate_returns_n_positions; [| lia].
  unfold animation_params. js_fields. f_equal.
  rewrite INR_IZR_INZ. reflexivity.
Defined.

(* ------------------------------------------------------------------ *)
(** ** The two engines side by side *)

(** The two denominators agree up to scale: on finite values,
    [L1 * denom] of the inline engine is twice [den] of [updateState]. *)
Lemma denominators_up_to_scale (m1 m2 L1 L2 g t1 t2 d1 d2 : R) :
  let s := State.mk t1 t2 d1 d2 in
  (App.L1 (App.mkSettings 1 m1 m2 L1 L2 g 0)
   * App.denom (App.mkSettings 1 m1 m2 L1 L2 g 0) s)%js
  = (2 * PlotApp.Update.den s (PlotApp.mkSettings 1 m1 m2 L1 L2 g 0 0 0))%js.
Proof.
  cbv zeta. unfold App.denom, App.delta, PlotApp.Update.den. js_eval.
  f_equal. rewrite cos_2a_cos. ring.
Qed.

(** C8 at the failing input: both links horizontal and at rest, default
    masses, lengths and gravity, no damping and no stiffness.  The inline
    engine gives [ddtheta1 = -g/L1 = -0.0981]; [updateState] gives
    [-g/L1^2 = -0.000981]. *)
Theorem engines_disagree_on_horizontal_rest :
  let s := at_rest (PI / 2) in
  App.ddtheta1 (App.mkSettings 1 100 50 100 50 9.81 0) s = Fin (- 0.0981)
  /\ PlotApp.Update.ddtheta1 s (PlotApp.mkSettings 1 100 50 100 50 9.81 0 0 0)
     = Fin (- 0.000981)
  /\ App.ddtheta1 (App.mkSettings 1 100 50 100 50 9.81 0) s
     <> PlotApp.Update.ddtheta1 s
          (PlotApp.mkSettings 1 100 50 100 50 9.81 0 0 0).
Proof.
  cbv zeta.
  assert (A : App.ddtheta1 (App.mkSettings 1 100 50 100 50 9.81 0)
                (at_rest (PI / 2)) = Fin (- 0.0981)).
  { unfold App.ddtheta1, App.ddtheta1_num, App.denom, App.delta, at_rest.
    js_eval.
    replace (PI / 2 + - (PI / 2)) with 0 by lra.
    replace (PI / 2 + - (2 * (PI / 2))) with (- (PI / 2)) by lra.
    replace (2 * 0) with 0 by lra.
    rewrite sin_neg, sin_PI2, sin_0, cos_0.
    rewrite div_Fin by lra. f_equal. apply Rdiv_unique; lra. }
  assert (B : PlotApp.Update.ddtheta1 (at_rest (PI / 2))
                (PlotApp.mkSettings 1 100 50 100 50 9.81 0 0 0)
              = Fin (- 0.000981)).
  { unfold PlotApp.Update.ddtheta1, PlotApp.Update.ddtheta1_num,
      PlotApp.Update.ddtheta1_plain, PlotApp.Update.den, at_rest.
    js_eval.
    replace (PI / 2 + - (PI / 2)) with 0 by lra.
    replace (PI / 2 + - (2 * (PI / 2))) with (- (PI / 2)) by lra.
    rewrite sin_neg, sin_PI2, sin_0, cos_0.
    rewrite div_Fin by lra. f_equal. apply Rdiv_unique; lra. }
  split; [exact A |]. split; [exact B |].
  rewrite A, B. intros H. injection H as H. lra.
Qed.

(* ------------------------------------------------------------------ *)
(** ** Dragging bob 2 *)

(** The bob-2 branch in terms of its intermediate values. *)
Lemma onmousemove_bob2 (L1 L2 width : num) (state : State.t)
    (offsetX offsetY : num) :
  let q := Pointer.screenToSim width offsetX offsetY in
  let theta1 :=
    (JS.atan2 (px q) (py q)
     - JS.acos (Pointer.acosArgA L1 L2 (px q) (py q)))%js in
  let theta2 :=
    (JS.PI - JS.acos (Pointer.acosArgB L1 L2 (px q) (py q)))%js in
  Pointer.onmousemove (Some M2) L1 L2 width state offsetX offsetY
  = State.mk theta1 (theta1 + theta2)%js 0 0.
Proof. reflexivity. Qed.

Lemma div_Fin_zero_zero (x y : R) :
  x = 0 -> y = 0 -> JS.div (Fin x) (Fin y) = NaN.
Proof. intros -> ->. apply div_zero_zero. Qed.

(** C5 at the failing input: links of equal length 100 and the pointer on
    the pivot (canvas point [(300, 100)]).  The clamped distance is zero,
    [cosA] is [0/0], the clamp to [[-1, 1]] passes [NaN] on, and both
    angles become [NaN]; bob 2 is then at no distance at all. *)
Theorem drag_bob2_onto_pivot_equal_links :
  let s' := Pointer.onmousemove (Some M2) 100 100 600 initial_state 300 100 in
  Pointer.clampedD 100 100 (px (Pointer.screenToSim 600 300 100))
    (py (Pointer.screenToSim 600 300 100)) = Fin 0
  /\ Pointer.acosArgA 100 100 (px (Pointer.screenToSim 600 300 100))
       (py (Pointer.screenToSim 600 300 100)) = NaN
  /\ s' = State.mk NaN NaN 0 0
  /\ bob2_distance 100 100 s' = NaN
  /\ ~ in_cc 0 200 (bob2_distance 100 100 s').
Proof.
  cbv zeta.
  assert (Q : Pointer.screenToSim 600 300 100 = mkPoint 0 0).
  { unfold Pointer.screenToSim. rewrite div_Fin by lra. js_arith.
    f_equal; f_equal; lra. }
  assert (D : Pointer.clampedD 100 100 0 0 = Fin 0).
  { unfold Pointer.clampedD. js_arith. f_equal.
    replace (0 * 0 + 0 * 0) with 0 by lra. rewrite sqrt_0.
    match goal with |- context [Rabs ?e] => replace e with 0 by lra end.
    rewrite Rabs_R0.
    rewrite Rmax_left by lra. apply Rmin_right. lra. }
  assert (A : Pointer.acosArgA 100 100 0 0 = NaN).
  { unfold Pointer.acosArgA. cbv zeta. rewrite D. js_arith.
    rewrite div_Fin_zero_zero by lra. reflexivity. }
  assert (S : Pointer.onmousemove (Some M2) 100 100 600 initial_state 300 100
              = State.mk NaN NaN 0 0).
  { rewrite onmousemove_bob2. cbv zeta. rewrite Q. js_fields.
    rewrite A. reflexivity. }
  rewrite Q. js_fields.
  split; [exact D |]. split; [exact A |]. split; [exact S |].
  rewrite S. split; [reflexivity |].
  intros [r [E _]]. discriminate E.
Qed.

(** *** Everywhere else the resolver reaches the clamped distance

    For positive finite lengths and a finite pointer, unless the links are
    equal and the pointer sits on the pivot, the clamped distance is
    positive, both arguments of [Math.acos] are finite and in [[-1, 1]],
    and forward kinematics puts bob 2 at exactly the clamped distance from
    the pivot, which lies in [[|L1 - L2|, L1 + L2]].  This covers every
    unreachable target. *)

Lemma clampedD_Fin (L1 L2 x y : R) :
  Pointer.clampedD (Fin L1) (Fin L2) (Fin x) (Fin y) = Fin (Rclamped L1 L2 x y).
Proof. reflexivity. Qed.

Lemma Rclamped_bounds (L1 L2 x y : R) :
  0 < L1 -> 0 < L2 ->
  Rabs (L1 - L2) <= Rclamped L1 L2 x y <= L1 + L2.
Proof.
  intros H1 H2. unfold Rclamped.
  assert (Habs : Rabs (L1 - L2) <= L1 + L2).
  { unfold Rabs. destruct (Rcase_abs (L1 - L2)); lra. }
  split.
  - apply Rmin_glb; [exact Habs | apply Rmax_l].
  - apply Rmin_l.
Qed.

Lemma Rclamped_pos (L1 L2 x y : R) :
  0 < L1 -> 0 < L2 -> L1 <> L2 \/ x <> 0 \/ y <> 0 ->
  0 < Rclamped L1 L2 x y.
Proof.
  intros H1 H2 H. unfold Rclamped.
  apply Rmin_glb_lt; [lra |].
  destruct H as [H | H].
  - apply Rlt_le_trans with (Rabs (L1 - L2)); [| apply Rmax_l].
    apply Rabs_pos_lt. lra.
  - apply Rlt_le_trans with (sqrt (x * x + y * y)); [| apply Rmax_r].
    apply sqrt_lt_R0. destruct H as [H | H]; nra.
Qed.

Lemma acos_Fin (c : R) : -1 <= c <= 1 -> JS.acos (Fin c) = Fin (acos c).
Proof.
  intros [Hlo Hhi]. unfold JS.acos.
  destruct (Rlt_dec c (-1)); [lra |]. destruct (Rlt_dec 1 c); [lra | reflexivity].
Qed.

Lemma clamp_unit_bounds (c : R) : -1 <= Rmin 1 (Rmax (-1) c) <= 1.
Proof.
  split.
  - apply Rmin_glb; [lra | apply Rmax_l].
  - apply Rmin_l.
Qed.

Lemma clamp_unit_id (c : R) : -1 <= c <= 1 -> Rmin 1 (Rmax (-1) c) = c.
Proof.
  intros [Hlo Hhi]. rewrite Rmax_right by lra. apply Rmin_right. lra.
Qed.

Lemma cosB_in_unit (L1 L2 d : R) :
  0 < L1 -> 0 < L2 -> Rabs (L1 - L2) <= d <= L1 + L2 ->
  -1 <= (L1 * L1 + L2 * L2 - d * d) / (2 * L1 * L2) <= 1.
Proof.
  intros H1 H2 [Hlo Hhi].
  assert (Hd0 : 0 <= d) by (pose proof (Rabs_pos (L1 - L2)); lra).
  assert (Hsq1 : (L1 - L2) * (L1 - L2) <= d * d).
  { assert (Rabs (L1 - L2) * Rabs (L1 - L2) = (L1 - L2) * (L1 - L2)).
    { unfold Rabs. destruct (Rcase_abs (L1 - L2)); ring. }
    pose proof (Rabs_pos (L1 - L2)). nra. }
  assert (Hsq2 : d * d <= (L1 + L2) * (L1 + L2)) by nra.
  assert (Hp : 0 < 2 * L1 * L2) by nra.
  set (c := (L1 * L1 + L2 * L2 - d * d) / (2 * L1 * L2)).
  assert (E : c * (2 * L1 * L2) = L1 * L1 + L2 * L2 - d * d)
    by (unfold c; field; lra).
  split.
  - destruct (Rle_dec (-1) c) as [Hc | Hc]; [exact Hc | exfalso].
    assert (c * (2 * L1 * L2) < -1 * (2 * L1 * L2))
      by (apply Rmult_lt_compat_r; lra).
    lra.
  - destruct (Rle_dec c 1) as [Hc | Hc]; [exact Hc | exfalso].
    assert (1 * (2 * L1 * L2) < c * (2 * L1 * L2))
      by (apply Rmult_lt_compat_r; lra).
    lra.
Qed.

Lemma cos_PI_minus (b : R) : cos (PI + - b) = - cos b.
Proof.
  rewrite cos_plus, cos_PI, sin_PI, cos_neg. ring.
Qed.

(** Squared distance of the elbow chain: law of cosines. *)
Lemma chain_distance_sq (L1 L2 a b : R) :
  (L1 * sin a + L2 * sin (a + b)) * (L1 * sin a + L2 * sin (a + b))
  + (L1 * cos a + L2 * cos (a + b)) * (L1 * cos a + L2 * cos (a + b))
  = L1 * L1 + L2 * L2 + 2 * L1 * L2 * cos b.
Proof.
  rewrite sin_plus, cos_plus.
  pose proof (sin2_cos2 a) as Ha. pose proof (sin2_cos2 b) as Hb.
  unfold Rsqr in Ha, Hb.
  set (sa := sin a) in *. set (ca := cos a) in *.
  set (sb := sin b) in *. set (cb := cos b) in *.
  replace ((L1 * sa + L2 * (sa * cb + ca * sb))
           * (L1 * sa + L2 * (sa * cb + ca * sb))
           + (L1 * ca + L2 * (ca * cb - sa * sb))
             * (L1 * ca + L2 * (ca * cb - sa * sb)))
    with (L1 * L1 * (sa * sa + ca * ca)
          + L2 * L2 * ((sa * sa + ca * ca) * (sb * sb + cb * cb))
          + 2 * L1 * L2 * cb * (sa * sa + ca * ca)) by ring.
  rewrite Ha, Hb. ring.
Qed.

Section Resolver.
Variables L1 L2 x y : R.
Hypothesis HL1 : 0 < L1.
Hypothesis HL2 : 0 < L2.
Hypothesis Hd : L1 <> L2 \/ x <> 0 \/ y <> 0.

Let d := Rclamped L1 L2 x y.
Let cA := Rmin 1 (Rmax (-1) ((L1 * L1 + d * d - L2 * L2) / (2 * L1 * d))).
Let cB := (L1 * L1 + L2 * L2 - d * d) / (2 * L1 * L2).

Lemma acosArgA_Fin :
  Pointer.acosArgA (Fin L1) (Fin L2) (Fin x) (Fin y) = Fin cA.
Proof.
  unfold Pointer.acosArgA. cbv zeta. rewrite clampedD_Fin. fold d.
  pose proof (Rclamped_pos L1 L2 x y HL1 HL2 Hd) as Hpos. fold d in Hpos.
  js_arith. rewrite div_Fin by nra. js_arith.
  unfold cA. do 3 f_equal. f_equal; ring.
Qed.

Lemma acosArgB_Fin :
  Pointer.acosArgB (Fin L1) (Fin L2) (Fin x) (Fin y) = Fin cB.
Proof.
  unfold Pointer.acosArgB. cbv zeta. rewrite clampedD_Fin. fold d.
  js_arith. rewrite div_Fin by nra. js_arith.
  pose proof (Rclamped_bounds L1 L2 x y HL1 HL2) as Hb. fold d in Hb.
  pose proof (cosB_in_unit L1 L2 d HL1 HL2 Hb) as Hc. fold cB in Hc.
  f_equal. rewrite <- (clamp_unit_id cB Hc). unfold cB.
  do 2 f_equal. f_equal; ring.
Qed.
End Resolver.

Lemma screenToSim_Fin (w ox oy : R) :
  Pointer.screenToSim (Fin w) (Fin ox) (Fin oy)
  = mkPoint (Fin (ox - w / 2)) (Fin (oy - 100)).
Proof.
  unfold Pointer.screenToSim. rewrite div_Fin by lra. reflexivity.
Qed.

Lemma drag_bob2_reaches_clamped_distance (L1 L2 w ox oy : R)
    (state : State.t) :
  0 < L1 -> 0 < L2 ->
  L1 <> L2 \/ ox - w / 2 <> 0 \/ oy - 100 <> 0 ->
  let d := Rclamped L1 L2 (ox - w / 2) (oy - 100) in
  let q := Pointer.screenToSim w ox oy in
  let s' := Pointer.onmousemove (Some M2) L1 L2 w state ox oy in
  bob2_distance L1 L2 s' = Fin d
  /\ Rabs (L1 - L2) <= d <= L1 + L2
  /\ in_cc (-1) 1 (Pointer.acosArgA L1 L2 (px q) (py q))
  /\ in_cc (-1) 1 (Pointer.acosArgB L1 L2 (px q) (py q))
  /\ State.dtheta1 s' = Fin 0
  /\ State.dtheta2 s' = Fin 0.
Proof.
  intros HL1 HL2 Hd d q s'.
  set (x := ox - w / 2) in *. set (y := oy - 100) in *.
  pose proof (Rclamped_bounds L1 L2 x y HL1 HL2) as Hb. fold d in Hb.
  pose proof (cosB_in_unit L1 L2 d HL1 HL2 Hb) as Hc.
  assert (Hd0 : 0 <= d) by (pose proof (Rabs_pos (L1 - L2)); lra).
  assert (Q : q = mkPoint (Fin x) (Fin y)) by apply screenToSim_Fin.
  assert (A := acosArgA_Fin L1 L2 x y HL1 HL2 Hd).
  assert (B := acosArgB_Fin L1 L2 x y HL1 HL2).
  cbv zeta in A, B. fold d in A, B.
  split; [| split; [exact Hb | split; [| split; [| split; reflexivity]]]].
  - unfold s'. rewrite onmousemove_bob2. cbv zeta. fold q. rewrite Q.
    js_fields.
    rewrite A, B. rewrite !acos_Fin by (try apply clamp_unit_bounds; exact Hc).
    unfold bob2_distance, Pointer.getBobPositions. cbn [JS.atan2]. js_eval.
    f_equal. rewrite chain_distance_sq, cos_PI_minus, cos_acos by exact Hc.
    replace (L1 * L1 + L2 * L2
             + 2 * L1 * L2 * - ((L1 * L1 + L2 * L2 - d * d) / (2 * L1 * L2)))
      with (d * d) by (field; lra).
    now apply sqrt_square.
  - rewrite Q. js_fields. rewrite A. eexists. split; [reflexivity |].
    apply clamp_unit_bounds.
  - rewrite Q. js_fields. rewrite B. eexists. split; [reflexivity | exact Hc].
Qed.

(* ------------------------------------------------------------------ *)
(** ** Plot coordinates against canvas coordinates *)

Lemma inf_times_opp (pos : bool) (r : R) :
  JS.inf_times pos (- r) = JS.neg (JS.inf_times pos r).
Proof.
  unfold JS.inf_times.
  destruct (total_order_T r 0) as [[Hlt | Heq] | Hgt].
  - rewrite (Rsign_neg r Hlt), (Rsign_pos (- r)) by lra. now destruct pos.
  - subst r. rewrite Ropp_0, Rsign_zero. reflexivity.
  - rewrite (Rsign_pos r Hgt), (Rsign_neg (- r)) by lra. now destruct pos.
Qed.

Lemma inf_times_flip (pos : bool) (r : R) :
  JS.inf_times (negb pos) r = JS.neg (JS.inf_times pos r).
Proof.
  unfold JS.inf_times. destruct (JS.Rsign r), pos; reflexivity.
Qed.

(** [(-a) * b] is [-(a * b)], special values included. *)
Lemma mul_neg_l (a b : num) : JS.mul (JS.neg a) b = JS.neg (JS.mul a b).
Proof.
  destruct a as [x | | |], b as [y | | |]; cbn [JS.neg JS.mul];
    try reflexivity;
    try apply inf_times_opp;
    try (apply (inf_times_flip true));
    try (apply (inf_times_flip false)).
  f_equal. ring.
Qed.

(** [-(a + b)] is [(-a) + (-b)], special values included. *)
Lemma neg_add (a b : num) :
  JS.neg (JS.add a b) = JS.add (JS.neg a) (JS.neg b).
Proof.
  destruct a as [x | | |], b as [y | | |]; cbn [JS.neg JS.add];
    try reflexivity.
  f_equal. ring.
Qed.

(** X1.  The plot reads the same abscissas as the canvas and the opposite
    ordinates: [getPlotValue] gives [x1] and [x2] of [getBobPositions] and
    the negations of its [y1] and [y2], for every state and settings; a
    parameter name outside the seven known ones plots as zero. *)
Theorem plot_mirrors_canvas (settings : PlotApp.Settings) (time : num)
    (state : State.t) :
  let p := Pointer.getBobPositions (PlotApp.L1 settings) (PlotApp.L2 settings)
             state in
  PlotApp.getPlotValue settings time "x1" state = x1 p
  /\ PlotApp.getPlotValue settings time "y1" state = JS.neg (y1 p)
  /\ PlotApp.getPlotValue settings time "x2" state = x2 p
  /\ PlotApp.getPlotValue settings time "y2" state = JS.neg (y2 p)
  /\ forall param : string,
       ~ In param ["time"; "x1"; "y1"; "x2"; "y2"; "theta1"; "theta2"]%string ->
       PlotApp.getPlotValue settings time param state = Fin 0.
Proof.
  cbv zeta. unfold PlotApp.getPlotValue, Pointer.getBobPositions.
  cbn [String.eqb Ascii.eqb Bool.eqb x1 y1 x2 y2].
  split; [reflexivity |]. split; [apply mul_neg_l |].
  split; [reflexivity |]. split.
  - unfold JS.sub. rewrite neg_add, mul_neg_l. reflexivity.
  - intros param Hnot. cbv zeta.
    repeat match goal with
    | |- context [String.eqb param ?s] =>
        destruct (String.eqb_spec param s) as [-> | _];
        [exfalso; apply Hnot; simpl; tauto |]
    end.
    reflexivity.
Qed.

(* ------------------------------------------------------------------ *)
(** ** The divergence guard cannot fire with short links *)

Lemma abs_scaled_sine_small (l : R) (a : num) (bound : R) :
  Rabs l <= bound ->
  JS.gtb (JS.abs (JS.mul (Fin l) (JS.sin a))) (Fin bound) = false.
Proof.
  intros Hl. destruct a as [r | | |]; cbn [JS.sin JS.mul JS.abs];
    try reflexivity.
  unfold JS.gtb. apply ltb_Fin_false.
  rewrite Rabs_mult. pose proof (SIN_bound r) as [H1 H2].
  assert (Rabs (sin r) <= 1) by (apply Rabs_le; lra).
  pose proof (Rabs_pos l). nra.
Qed.

Lemma abs_chain_sine_small (l1 l2 : R) (a b : num) (bound : R) :
  Rabs l1 + Rabs l2 <= bound ->
  JS.gtb (JS.abs (JS.add (JS.mul (Fin l1) (JS.sin a))
                    (JS.mul (Fin l2) (JS.sin b)))) (Fin bound) = false.
Proof.
  intros Hl.
  destruct a as [r | | |], b as [t | | |];
    cbn [JS.sin JS.mul JS.add JS.abs]; try reflexivity.
  unfold JS.gtb. apply ltb_Fin_false.
  pose proof (SIN_bound r) as [H1 H2]. pose proof (SIN_bound t) as [H3 H4].
  assert (Rabs (sin r) <= 1) by (apply Rabs_le; lra).
  assert (Rabs (sin t) <= 1) by (apply Rabs_le; lra).
  pose proof (Rabs_pos l1). pose proof (Rabs_pos l2).
  eapply Rle_trans; [apply Rabs_triang |].
  rewrite !Rabs_mult. nra.
Qed.

(** X2.  With finite link lengths whose magnitudes add up to at most 10000
    (the sliders stop at 200 each), no frame of the canvas application ever
    trips the divergence guard, whatever the state, the masses and the
    drag target: it logs nothing and schedules the next frame.  A state
    holding [NaN] passes the guard too. *)
Theorem guard_never_fires (st : App.Settings) (target : DragTarget)
    (s : State.t) (l1 l2 : R) :
  App.L1 st = Fin l1 -> App.L2 st = Fin l2 ->
  Rabs l1 + Rabs l2 <= 10000 ->
  console (App.drawFrame st target s) = []
  /\ scheduled (App.drawFrame st target s) = true.
Proof.
  intros E1 E2 Hl. apply no_divergence_continues.
  unfold Pointer.getBobPositions. cbn [x1 x2]. rewrite E1, E2.
  rewrite abs_scaled_sine_small
    by (pose proof (Rabs_pos l2); lra).
  rewrite abs_chain_sine_small by exact Hl.
  reflexivity.
Qed.

Lemma guard_never_fires_witness :
  console (App.drawFrame App_defaults None initial_state) = []
  /\ scheduled (App.drawFrame App_defaults None initial_state) = true.
Proof.
  apply (guard_never_fires App_defaults None initial_state 100 50);
    [reflexivity | reflexivity |].
  rewrite !Rabs_right by lra. lra.
Defined.

(* ------------------------------------------------------------------ *)
(** ** The divisors of the engines *)

Lemma cos_cases (x : num) :
  JS.cos x = NaN \/ exists c : R, JS.cos x = Fin c /\ -1 <= c <= 1.
Proof.
  destruct x as [r | | |]; try (left; reflexivity).
  right. exists (cos r). split; [reflexivity | apply COS_bound].
Qed.

Lemma inline_denom_positive (m1 m2 c : R) :
  10 <= m1 -> 10 <= m2 -> -1 <= c <= 1 -> 0 < 2 * m1 + m2 + - (m2 * c).
Proof. intros H1 H2 Hc. nra. Qed.

Lemma update_den_positive (m1 m2 l1 c : R) :
  10 <= m1 -> 10 <= m2 -> 10 <= l1 -> -1 <= c <= 1 ->
  0 < (m1 + m2) * l1 + - (m2 * l1 * c * c).
Proof.
  intros H1 H2 H3 Hc.
  assert (Hcc : 0 <= c * c <= 1) by nra.
  assert (Hml : 0 <= m2 * l1) by nra.
  replace (m2 * l1 * c * c) with (m2 * l1 * (c * c)) by ring.
  nra.
Qed.

Lemma scaled_divisor_nonzero (l q : R) : 10 <= l -> 0 < q -> l * q <> 0.
Proof.
  intros Hl Hq. assert (0 < l * q) by (apply Rmult_lt_0_compat; lra). lra.
Qed.

(** X5.  With masses and lengths in the range of their sliders (10 to
    200), no engine ever divides by zero, whatever the state holds
    (special values included): the divisors [L1 * denom] and [L2 * denom]
    of the inline engines of both applications, and [L1 * den] and
    [L2 * den] of [updateState], are never zero. *)
Theorem engine_divisors_never_vanish (st : PlotApp.Settings) (s : State.t) :
  in_cc 10 200 (PlotApp.m1 st) -> in_cc 10 200 (PlotApp.m2 st) ->
  in_cc 10 200 (PlotApp.L1 st) -> in_cc 10 200 (PlotApp.L2 st) ->
  let c := PlotApp.without_stiffness st in
  (App.L1 c * App.denom c s <> 0
   /\ App.L2 c * App.denom c s <> 0
   /\ PlotApp.L1 st * PlotApp.denom st s <> 0
   /\ PlotApp.L2 st * PlotApp.denom st s <> 0
   /\ PlotApp.L1 st * PlotApp.Update.den s st <> 0
   /\ PlotApp.L2 st * PlotApp.Update.den s st <> 0)%js.
Proof.
  intros (m1 & Em1 & Hm1) (m2 & Em2 & Hm2) (l1 & El1 & Hl1)
         (l2 & El2 & Hl2).
  cbv zeta.
  unfold App.denom, PlotApp.denom, PlotApp.Update.den, App.delta,
    PlotApp.delta, PlotApp.without_stiffness.
  cbn [App.m1 App.m2 App.L1 App.L2].
  rewrite Em1, Em2, El1, El2.
  destruct (cos_cases (2 * (State.theta1 s - State.theta2 s))%js)
    as [-> | [c [-> Hc]]];
    destruct (cos_cases (State.theta1 s - State.theta2 s)%js)
      as [-> | [c' [-> Hc']]];
    js_arith;
    repeat split; try discriminate;
    intros E; injection E as E; revert E;
    (apply scaled_divisor_nonzero;
     [lra | first [apply inline_denom_positive
                  | apply update_den_positive]; lra]).
Qed.

Lemma engine_divisors_never_vanish_witness :
  (App.L1 (PlotApp.without_stiffness PlotApp_defaults)
   * App.denom (PlotApp.without_stiffness PlotApp_defaults) initial_state
   <> 0)%js.
Proof.
  refine (proj1 (engine_divisors_never_vanish PlotApp_defaults initial_state
                   _ _ _ _)).
  - exists 100. split; [reflexivity | lra].
  - exists 50. split; [reflexivity | lra].
  - exists 100. split; [reflexivity | lra].
  - exists 50. split; [reflexivity | lra].
Defined.

(* ------------------------------------------------------------------ *)
(** ** The engines against each other *)

Lemma sub_zero_times (a : num) (d : R) :
  JS.sub a (JS.mul (Fin 0) (Fin d)) = a.
Proof.
  destruct a; cbn [JS.sub JS.mul JS.neg JS.add]; try reflexivity.
  f_equal. ring.
Qed.

(** X7.  The batch simulator takes the step of the canvas engine with
    damping zero and without the wrap: from any state with finite
    velocities, one pass of its loop body leaves the same four values as
    the four assignments of [drawFrame] under the same masses, lengths and
    gravity. *)
Theorem simulator_step_is_undamped_inline_step (p : Simulate.PendulumParams)
    (s : State.t) (w1 w2 : R) :
  State.dtheta1 s = Fin w1 -> State.dtheta2 s = Fin w2 ->
  Simulate.integrate p s
  = App.advance 0 (Simulate.dt p)
      (App.ddtheta1 (Simulate_settings p) s)
      (App.ddtheta2 (Simulate_settings p) s) s.
Proof.
  destruct s as [a b da db]. cbn [State.dtheta1 State.dtheta2].
  intros -> ->.
  unfold App.advance. js_fields. rewrite !sub_zero_times.
  reflexivity.
Qed.

Lemma simulator_step_is_undamped_inline_step_witness :
  Simulate.integrate animation_params (Simulate.init animation_params)
  = App.advance 0 (Simulate.dt animation_params)
      (App.ddtheta1 (Simulate_settings animation_params)
         (Simulate.init animation_params))
      (App.ddtheta2 (Simulate_settings animation_params)
         (Simulate.init animation_params))
      (Simulate.init animation_params).
Proof.
  exact (simulator_step_is_undamped_inline_step animation_params
           (Simulate.init animation_params) 0 0 eq_refl eq_refl).
Defined.

(** X8.  With both stiffness coefficients at zero the inline engine of
    the plotting application is that of the canvas application: from any
    state with finite angles the two steps agree. *)
Theorem zero_stiffness_inline_step (st : PlotApp.Settings) (dt : num)
    (s : State.t) (a b : R) :
  State.theta1 s = Fin a -> State.theta2 s = Fin b ->
  PlotApp.k1 st = Fin 0 -> PlotApp.k2 st = Fin 0 ->
  PlotApp.step st dt s = App.step (PlotApp.without_stiffness st) dt s.
Proof.
  destruct s as [t1 t2 da db]. cbn [State.theta1 State.theta2].
  intros -> -> K1 K2.
  assert (E1 : PlotApp.ddtheta1 st (State.mk a b da db)
               = App.ddtheta1 (PlotApp.without_stiffness st)
                   (State.mk a b da db)).
  { unfold PlotApp.ddtheta1, PlotApp.ddtheta1_num.
    js_fields. rewrite K1, sub_zero_times. reflexivity. }
  assert (E2 : PlotApp.ddtheta2 st (State.mk a b da db)
               = App.ddtheta2 (PlotApp.without_stiffness st)
                   (State.mk a b da db)).
  { unfold PlotApp.ddtheta2, PlotApp.ddtheta2_num.
    js_fields. rewrite K2.
    change (JS.sub (Fin b) (Fin a)) with (Fin (b + - a)).
    rewrite sub_zero_times. reflexivity. }
  unfold PlotApp.step, App.step. rewrite E1, E2. reflexivity.
Qed.

Lemma zero_stiffness_inline_step_witness :
  PlotApp.step PlotApp_defaults (Fin (1 / 10)) (at_rest 1)
  = App.step (PlotApp.without_stiffness PlotApp_defaults) (Fin (1 / 10))
      (at_rest 1).
Proof.
  exact (zero_stiffness_inline_step PlotApp_defaults (Fin (1 / 10))
           (at_rest 1) 1 1 eq_refl eq_refl eq_refl eq_refl).
Defined.

(* ------------------------------------------------------------------ *)
(** ** The hanging pendulum *)

(** X9.  A pendulum hanging at rest stays at rest under every setting
    the sliders can reach (speed 0.1 to 10, masses and lengths 10 to 200,
    gravity 0.1 to 20, damping -1 to 1, stiffness -10000 to 10000): a
    free-running frame of the canvas application maps the state
    [theta1 = theta2 = 0], [dtheta1 = dtheta2 = 0] to itself, and so does
    [updateState] for every finite [dt]. *)
Theorem hanging_rest_is_fixed (sp m1 m2 L1 L2 g d c1 c2 t : R) :
  0.1 <= sp <= 10 ->
  10 <= m1 <= 200 -> 10 <= m2 <= 200 ->
  10 <= L1 <= 200 -> 10 <= L2 <= 200 ->
  0.1 <= g <= 20 -> -1 <= d <= 1 ->
  -10000 <= c1 <= 10000 -> -10000 <= c2 <= 10000 ->
  frame_state (App.drawFrame (App.mkSettings sp m1 m2 L1 L2 g d) None
                 (at_rest 0))
  = at_rest 0
  /\ PlotApp.updateState (at_rest 0) (Fin t)
       (PlotApp.mkSettings sp m1 m2 L1 L2 g d c1 c2)
     = at_rest 0.
Proof.
  intros Hsp Hm1 Hm2 Hl1 Hl2 Hg Hd Hc1 Hc2.
  assert (Hm : m1 <> 0) by lra.
  assert (HL1 : L1 <> 0) by lra.
  assert (HL2 : L2 <> 0) by lra.
  pose proof PI_RGT_0 as Hpi. split.
  - rewrite App_drawFrame_state, App_step_unfold. cbv zeta.
    rewrite App_fixedDt. js_eval.
    rewrite (App_advance_at_rest sp m1 m2 L1 L2 g d (1 / 20 * sp) 0)
      by (try rewrite sin_0; lra || assumption).
    unfold at_rest. js_fields. rewrite wrap_in_range by lra. reflexivity.
  - unfold PlotApp.updateState, PlotApp.Update.ddtheta1,
      PlotApp.Update.ddtheta2, PlotApp.Update.ddtheta1_num,
      PlotApp.Update.ddtheta2_num, PlotApp.Update.ddtheta1_plain,
      PlotApp.Update.ddtheta2_plain, PlotApp.Update.den, at_rest.
    js_eval.
    replace (0 + - 0) with 0 by lra.
    replace (0 + - (2 * 0)) with 0 by lra.
    rewrite sin_0, cos_0.
    assert (Hden : (m1 + m2) * L1 + - (m2 * L1 * 1 * 1) <> 0).
    { replace ((m1 + m2) * L1 + - (m2 * L1 * 1 * 1)) with (m1 * L1) by ring.
      now apply Rmult_integral_contrapositive_currified. }
    rewrite !div_Fin
      by (apply Rmult_integral_contrapositive_currified; assumption).
    js_eval.
    set (D := (m1 + m2) * L1 + - (m2 * L1 * 1 * 1)) in *.
    f_equal; f_equal; unfold Rdiv; ring.
Qed.

Lemma hanging_rest_is_fixed_witness :
  frame_state (App.drawFrame (App.mkSettings 1 100 50 100 50 9.81 0.01) None
                 (at_rest 0))
  = at_rest 0
  /\ PlotApp.updateState (at_rest 0) (Fin (1 / 60))
       (PlotApp.mkSettings 1 100 50 100 50 9.81 0.01 5 7)
     = at_rest 0.
Proof.
  apply (hanging_rest_is_fixed 1 100 50 100 50 9.81 0.01 5 7 (1 / 60)); lra.
Defined.

(* ------------------------------------------------------------------ *)
(** ** Clicking on a bob *)

(** X10.  A click closer than five pixels to the centre of bob 2 always
    grabs bob 2, for every non-negative second mass: the pick radius
    [sqrt(m2)*0.5 + 5] is never below five. *)
Theorem click_near_bob2_grabs_it (m1 : num) (m2 L1 L2 w a b ox oy : R)
    (d1 d2 : num) :
  0 <= m2 ->
  let x := ox - w / 2 in
  let y := oy - 100 in
  let x2 := L1 * sin a + L2 * sin b in
  let y2 := L1 * cos a + L2 * cos b in
  sqrt ((x - x2) * (x - x2) + (y - y2) * (y - y2)) < 5 ->
  Pointer.onmousedown m1 m2 L1 L2 w (State.mk a b d1 d2) ox oy = Some M2.
Proof.
  intros Hm x y bx by_ Hnear.
  unfold Pointer.onmousedown, Pointer.getBobPositions, Pointer.screenToSim.
  cbv zeta. js_fields.
  rewrite div_Fin by lra. rewrite (sqrt_Fin m2 Hm). js_eval.
  match goal with
  | |- (if ?c then _ else _) = _ =>
      assert (E : c = true); [| rewrite E; reflexivity]
  end.
  apply ltb_Fin. pose proof (sqrt_pos m2) as Hs.
  eapply Rle_lt_trans; [| eapply Rlt_le_trans; [exact Hnear | lra]].
  apply Req_le. unfold x, y, bx, by_. f_equal; ring.
Qed.

Lemma click_near_bob2_grabs_it_witness :
  Pointer.onmousedown 100 50 100 50 600 (State.mk 0 0 0 0) 303 250 = Some M2.
Proof.
  apply (click_near_bob2_grabs_it 100 50 100 50 600 0 0 303 250 0 0);
    [lra |].
  rewrite sin_0, cos_0.
  replace ((303 - 600 / 2 - (100 * 0 + 50 * 0))
           * (303 - 600 / 2 - (100 * 0 + 50 * 0))
           + (250 - 100 - (100 * 1 + 50 * 1))
             * (250 - 100 - (100 * 1 + 50 * 1)))
    with (3 * 3) by lra.
  rewrite sqrt_square by lra. lra.
Defined.

(* ------------------------------------------------------------------ *)
(** ** The settings panel *)

Lemma panel_handle_in_sync (p : PlotApp.Panel) (e : PanelEvent) :
  panel_in_sync p -> panel_in_sync (panel_handle p e).
Proof.
  unfold panel_in_sync. destruct p as [st en av]. destruct e as [key v | en'].
  - cbn [panel_handle PlotApp.updateSetting PlotApp.conceptualEnabled
         PlotApp.activeValues PlotApp.settings].
    intros H Hen. specialize (H Hen). subst av.
    destruct st, key; reflexivity.
  - destruct en'; cbn; intros; [destruct av; reflexivity | discriminate].
Qed.

Lemma panel_run_in_sync (events : list PanelEvent) (p : PlotApp.Panel) :
  panel_in_sync p -> panel_in_sync (panel_run events p).
Proof.
  revert p. induction events as [| e events IH]; intros p Hp; [exact Hp |].
  apply IH. now apply panel_handle_in_sync.
Qed.

(** X11.  Switching the conceptual properties off and on again changes
    nothing: after any sequence of slider moves and checkbox clicks from
    the first render that leaves the properties enabled, [toggleConceptual
    (false)] followed by [toggleConceptual(true)] gives back the same
    settings (damping, [k1] and [k2] included), the same stored values and
    the enabled flag; in between, damping, [k1] and [k2] are zero. *)
Theorem conceptual_off_on_roundtrip (events : list PanelEvent) :
  let p := panel_run events PlotApp.panelStart in
  PlotApp.conceptualEnabled p = true ->
  conceptual_of (PlotApp.settings (PlotApp.toggleConceptual false p))
  = PlotApp.ConceptualValues.mk 0 0 0
  /\ PlotApp.toggleConceptual true (PlotApp.toggleConceptual false p) = p.
Proof.
  intros p Hen.
  assert (Hsync : panel_in_sync p)
    by (apply panel_run_in_sync; intros _; reflexivity).
  specialize (Hsync Hen). destruct p as [st en av].
  cbn in Hen, Hsync. subst en av. destruct st. split; reflexivity.
Qed.

Lemma conceptual_off_on_roundtrip_witness :
  conceptual_of
    (PlotApp.settings
       (PlotApp.toggleConceptual false
          (panel_run [Slider PlotApp.Key.k1 (Fin 40); Checkbox false;
                      Slider PlotApp.Key.damping (Fin 0.5); Checkbox true]
             PlotApp.panelStart)))
  = PlotApp.ConceptualValues.mk 0 0 0
  /\ PlotApp.toggleConceptual true
       (PlotApp.toggleConceptual false
          (panel_run [Slider PlotApp.Key.k1 (Fin 40); Checkbox false;
                      Slider PlotApp.Key.damping (Fin 0.5); Checkbox true]
             PlotApp.panelStart))
     = panel_run [Slider PlotApp.Key.k1 (Fin 40); Checkbox false;
                  Slider PlotApp.Key.damping (Fin 0.5); Checkbox true]
         PlotApp.panelStart.
Proof.
  exact (conceptual_off_on_roundtrip
           [Slider PlotApp.Key.k1 (Fin 40); Checkbox false;
            Slider PlotApp.Key.damping (Fin 0.5); Checkbox true] eq_refl).
Defined.

(* ------------------------------------------------------------------ *)
(** ** The zoom box *)

Lemma zoom_handle_ok (z : PlotApp.Zoom) (e : ZoomEvent) :
  zoom_ok z -> zoom_ok (zoom_handle z e).
Proof.
  intros [Hscale Hdrag]. destruct z as [au zw dr zr ds].
  cbn [PlotApp.isAutoScale PlotApp.zoomRef PlotApp.isDragging
       PlotApp.zoomWindow] in *.
  destruct e as [c | c | |]; unfold zoom_ok, zoom_handle.
  - cbn. split; [exact Hscale | discriminate].
  - unfold PlotApp.handleMouseMove. cbn [PlotApp.isDragging PlotApp.dragStartRef].
    destruct dr; [| split; assumption].
    destruct ds; cbn; (split; [exact Hscale | discriminate]).
  - unfold PlotApp.handleMouseUp.
    cbn [PlotApp.isDragging PlotApp.zoomWindow].
    destruct dr; [| cbn; split; [exact Hscale | reflexivity]].
    destruct zw as [w |]; [| cbn; split; [exact Hscale | reflexivity]].
    destruct (JS.gtb (JS.abs (JS.sub (PlotApp.ZoomWindow.endX w)
                                (PlotApp.ZoomWindow.startX w))) (Fin 10))
      eqn:Ex;
      destruct (JS.gtb (JS.abs (JS.sub (PlotApp.ZoomWindow.endY w)
                                  (PlotApp.ZoomWindow.startY w))) (Fin 10))
        eqn:Ey;
      cbn; (split; [| reflexivity]); try exact Hscale.
    right. split; [reflexivity |]. exists w. split; [reflexivity |].
    split; assumption.
  - cbn. split; [left; split; reflexivity | exact Hdrag].
Qed.

(** X12.  The zoom handlers keep what they store consistent: after any
    sequence of mouse-down, mouse-move, mouse-up and reset events on the
    plot, either the [isAutoScale] state is on and [zoomRef] holds no
    window, or it is off and [zoomRef] holds a window wider and taller than
    ten pixels; and a selection window is stored only while a drag is in
    progress. *)
Theorem zoom_state_invariant (events : list ZoomEvent) :
  let z := zoom_run events PlotApp.zoomStart in
  (PlotApp.isAutoScale z = true /\ PlotApp.zoomRef z = None
   \/ PlotApp.isAutoScale z = false
      /\ exists w, PlotApp.zoomRef z = Some w /\ big_window w)
  /\ (PlotApp.isDragging z = false -> PlotApp.zoomWindow z = None).
Proof.
  cbv zeta. change (zoom_ok (zoom_run events PlotApp.zoomStart)).
  assert (H : zoom_ok PlotApp.zoomStart).
  { split; [left; split; reflexivity | reflexivity]. }
  revert H. generalize PlotApp.zoomStart.
  induction events as [| e events IH]; intros z Hz; [exact Hz |].
  apply IH. now apply zoom_handle_ok.
Qed.

(* ------------------------------------------------------------------ *)
(** ** The trace recorder *)

Lemma falsy_zero : PlotApp.falsy (Fin 0) = true.
Proof.
  unfold PlotApp.falsy. destruct (Req_dec_T 0 0) as [_ | H]; [reflexivity |].
  now elim H.
Qed.

Lemma falsy_Fin (r : R) : r <> 0 -> PlotApp.falsy (Fin r) = false.
Proof.
  intros H. unfold PlotApp.falsy.
  destruct (Req_dec_T r 0); [contradiction | reflexivity].
Qed.

Lemma animate_lastTime (st : PlotApp.Settings) (po : PlotApp.PlotOptions)
    (t : num) (a : PlotApp.Anim) :
  PlotApp.lastTimeRef (PlotApp.animate st po t a) = t.
Proof.
  unfold PlotApp.animate. destruct (PlotApp.falsy (PlotApp.lastTimeRef a));
    reflexivity.
Qed.

Lemma animate_trace_length (st : PlotApp.Settings) (po : PlotApp.PlotOptions)
    (t : num) (a : PlotApp.Anim) :
  PlotApp.falsy (PlotApp.lastTimeRef a) = false ->
  (length (PlotApp.tracePointsRef a) <= 5000)%nat ->
  length (PlotApp.tracePointsRef (PlotApp.animate st po t a))
  = Nat.min (S (length (PlotApp.tracePointsRef a))) 5000.
Proof.
  intros Hf Hlen. unfold PlotApp.animate. rewrite Hf. cbv zeta.
  cbn [PlotApp.tracePointsRef].
  set (pt := PlotApp.TracePoint.mk _ _ _).
  assert (Happ : length (PlotApp.tracePointsRef a ++ [pt])
                 = S (length (PlotApp.tracePointsRef a)))
    by (rewrite length_app; cbn [length]; lia).
  destruct (Nat.ltb_spec 5000 (length (PlotApp.tracePointsRef a ++ [pt])))
    as [Hgt | Hle].
  - destruct (PlotApp.tracePointsRef a ++ [pt]) as [| q rest] eqn:E;
      cbn [tl length] in *; lia.
  - lia.
Qed.

Lemma last_default_irrelevant {A : Type} (b d d' : A) (l : list A) :
  last (b :: l) d = last (b :: l) d'.
Proof.
  revert b. induction l as [| c l IH]; intros b; [reflexivity |].
  change (last (c :: l) d = last (c :: l) d'). apply IH.
Qed.

Lemma last_cons_default {A : Type} (a d : A) (l : list A) :
  last (a :: l) d = last l a.
Proof.
  destruct l as [| b l]; [reflexivity |].
  change (last (b :: l) d = last (b :: l) a). apply last_default_irrelevant.
Qed.

Lemma last_snoc {A : Type} (l : list A) (x d : A) : last (l ++ [x]) d = x.
Proof.
  induction l as [| a l IH]; [reflexivity |].
  destruct l as [| b l]; [reflexivity |]. exact IH.
Qed.

Lemma last_tl_snoc {A : Type} (l : list A) (x d : A) :
  l <> [] -> last (tl (l ++ [x])) d = x.
Proof.
  destruct l as [| a l]; [congruence |]. intros _.
  cbn [app tl]. apply last_snoc.
Qed.

Lemma animate_run_lastTime (st : PlotApp.Settings) (po : PlotApp.PlotOptions)
    (ts : list num) (a : PlotApp.Anim) :
  PlotApp.lastTimeRef (animate_run st po ts a)
  = last ts (PlotApp.lastTimeRef a).
Proof.
  revert a. induction ts as [| t ts IH]; intros a; [reflexivity |].
  cbn [animate_run fold_left].
  change (fold_left _ ts ?b) with (animate_run st po ts b).
  rewrite IH, animate_lastTime. symmetry. apply last_cons_default.
Qed.

Lemma animate_run_snoc (st : PlotApp.Settings) (po : PlotApp.PlotOptions)
    (ts : list num) (t : num) (a : PlotApp.Anim) :
  animate_run st po (ts ++ [t]) a
  = PlotApp.animate st po t (animate_run st po ts a).
Proof. unfold animate_run. now rewrite fold_left_app. Qed.

Lemma Forall_last_truthy (ts : list num) (t0 : num) :
  Forall (fun t => PlotApp.falsy t = false) (t0 :: ts) ->
  PlotApp.falsy (last ts t0) = false.
Proof.
  intros H. rewrite <- (last_cons_default t0 t0 ts).
  assert (Hin : In (last (t0 :: ts) t0) (t0 :: ts)).
  { destruct (exists_last (l := t0 :: ts)) as [l' [x E]]; [discriminate |].
    rewrite E, last_snoc. apply in_or_app. right. now left. }
  exact (proj1 (Forall_forall _ _) H _ Hin).
Qed.

(** A stepping frame appends its point and, when that makes 5001 points,
    drops the first one. *)
Lemma animate_trace (st : PlotApp.Settings) (po : PlotApp.PlotOptions)
    (t : num) (a : PlotApp.Anim) :
  PlotApp.falsy (PlotApp.lastTimeRef a) = false ->
  let a' := PlotApp.animate st po t a in
  let l := PlotApp.tracePointsRef a ++ [point_of st po a'] in
  PlotApp.tracePointsRef a' = if Nat.ltb 5000 (length l) then tl l else l.
Proof.
  intros Hf. cbv zeta. unfold PlotApp.animate, point_of. rewrite Hf.
  reflexivity.
Qed.

Lemma skipn_tl_app {A : Type} (l r : list A) (n : nat) :
  l <> [] -> skipn n (tl l ++ r) = skipn (S n) (l ++ r).
Proof. destruct l as [| x l]; [congruence | reflexivity]. Qed.

(** From any refs with at most 5000 points, a run of stepping frames
    leaves the last 5000 of the old points followed by the new ones. *)
Lemma animate_run_trace (st : PlotApp.Settings) (po : PlotApp.PlotOptions)
    (ts : list num) :
  Forall (fun t => PlotApp.falsy t = false) ts ->
  forall a : PlotApp.Anim,
    PlotApp.falsy (PlotApp.lastTimeRef a) = false ->
    (length (PlotApp.tracePointsRef a) <= 5000)%nat ->
    PlotApp.tracePointsRef (animate_run st po ts a)
    = skipn (length (PlotApp.tracePointsRef a) + length ts - 5000)
        (PlotApp.tracePointsRef a ++ recorded st po ts a).
Proof.
  induction 1 as [| t ts Ht Hts IH]; intros a Hf Hlen.
  - cbn [animate_run fold_left recorded length].
    replace (length (PlotApp.tracePointsRef a) + 0 - 5000)%nat with 0%nat
      by lia.
    now rewrite app_nil_r.
  - cbn [animate_run fold_left recorded length]. cbv zeta.
    change (fold_left _ ts ?b) with (animate_run st po ts b).
    set (a' := PlotApp.animate st po t a).
    assert (Hf' : PlotApp.falsy (PlotApp.lastTimeRef a') = false)
      by (unfold a'; now rewrite animate_lastTime).
    assert (Hlen' : length (PlotApp.tracePointsRef a')
                    = Nat.min (S (length (PlotApp.tracePointsRef a))) 5000)
      by (apply animate_trace_length; assumption).
    rewrite (IH a' Hf') by lia.
    pose proof (animate_trace st po t a Hf) as E. cbv zeta in E.
    fold a' in E.
    assert (Happ : length (PlotApp.tracePointsRef a ++ [point_of st po a'])
                   = S (length (PlotApp.tracePointsRef a)))
      by (rewrite length_app; cbn [length]; lia).
    destruct (Nat.ltb_spec 5000
                (length (PlotApp.tracePointsRef a ++ [point_of st po a'])))
      as [Hgt | Hle].
    + rewrite Hlen', E.
      assert (L : length (PlotApp.tracePointsRef a) = 5000%nat) by lia.
      rewrite L.
      replace (Nat.min (S 5000) 5000 + length ts - 5000)%nat
        with (length ts) by lia.
      replace (5000 + S (length ts) - 5000)%nat with (S (length ts)) by lia.
      rewrite skipn_tl_app.
      * now rewrite <- app_assoc.
      * intros N. apply (f_equal (@length _)) in N.
        rewrite Happ in N. discriminate.
    + rewrite Hlen', E.
      replace (Nat.min (S (length (PlotApp.tracePointsRef a))) 5000
               + length ts - 5000)%nat
        with (length (PlotApp.tracePointsRef a) + S (length ts) - 5000)%nat
        by lia.
      now rewrite <- app_assoc.
Qed.

Lemma recorded_length (st : PlotApp.Settings) (po : PlotApp.PlotOptions)
    (ts : list num) (a : PlotApp.Anim) :
  length (recorded st po ts a) = length ts.
Proof.
  revert a. induction ts as [| t ts IH]; intros a; [reflexivity |].
  cbn [recorded length]. cbv zeta. now rewrite IH.
Qed.

(** X13.  The trace is a queue of at most 5000 points, oldest first: from
    the refs as the effect resets them, after a first frame and further
    frames at timestamps [ts] (all truthy), the trace is the list of the
    points those further frames recorded, in their order, without its
    first [length ts - 5000] points.  So points leave in the order they
    came, the trace holds [min(length ts, 5000)] points, and its last
    point is the one of the latest frame. *)
Theorem trace_is_a_bounded_queue (st : PlotApp.Settings)
    (po : PlotApp.PlotOptions) (s : State.t) (t0 : num) (ts : list num) :
  Forall (fun t => PlotApp.falsy t = false) (t0 :: ts) ->
  let a0 := PlotApp.animate st po t0 (PlotApp.animStart s) in
  let a := animate_run st po (t0 :: ts) (PlotApp.animStart s) in
  PlotApp.tracePointsRef a
  = skipn (length ts - 5000) (recorded st po ts a0)
  /\ length (PlotApp.tracePointsRef a) = Nat.min (length ts) 5000
  /\ (ts <> [] ->
      forall d : PlotApp.TracePoint.t,
        last (PlotApp.tracePointsRef a) d = point_of st po a).
Proof.
  intros H. cbv zeta.
  inversion H as [| ? ? Ht0 Hts]; subst.
  assert (E0 : PlotApp.animate st po t0 (PlotApp.animStart s)
               = PlotApp.mkAnim t0 0 s []).
  { unfold PlotApp.animate at 1, PlotApp.animStart.
    cbn [PlotApp.lastTimeRef]. rewrite falsy_zero. reflexivity. }
  assert (Erun : animate_run st po (t0 :: ts) (PlotApp.animStart s)
                 = animate_run st po ts (PlotApp.mkAnim t0 0 s [])).
  { cbn [animate_run fold_left]. now rewrite E0. }
  assert (Etr : PlotApp.tracePointsRef
                  (animate_run st po ts (PlotApp.mkAnim t0 0 s []))
                = skipn (length ts - 5000)
                    (recorded st po ts (PlotApp.mkAnim t0 0 s []))).
  { rewrite (animate_run_trace st po ts Hts (PlotApp.mkAnim t0 0 s []));
      cbn [PlotApp.lastTimeRef PlotApp.tracePointsRef length app];
      [reflexivity | assumption | lia]. }
  rewrite Erun, E0. split; [exact Etr |]. split.
  - rewrite Etr, length_skipn, recorded_length. lia.
  - intros Hne d.
    destruct (exists_last Hne) as [ts' [t E]]. subst ts.
    rewrite animate_run_snoc.
    set (b := animate_run st po ts' (PlotApp.mkAnim t0 0 s [])).
    assert (Hb : PlotApp.falsy (PlotApp.lastTimeRef b) = false).
    { unfold b. rewrite animate_run_lastTime. cbn [PlotApp.lastTimeRef].
      apply Forall_last_truthy.
      change (t0 :: ts' ++ [t]) with ((t0 :: ts') ++ [t]) in H.
      apply Forall_app in H. exact (proj1 H). }
    pose proof (animate_trace st po t b Hb) as E. cbv zeta in E.
    rewrite E.
    destruct (Nat.ltb_spec 5000
                (length (PlotApp.tracePointsRef b
                         ++ [point_of st po (PlotApp.animate st po t b)])))
      as [Hgt | Hle].
    + apply last_tl_snoc. intros N. rewrite N in Hgt.
      cbn [app length] in Hgt. lia.
    + apply last_snoc.
Qed.

(** A run that goes past the cap: a first frame and 5001 further frames
    leave the points of those 5001 frames without the oldest one. *)
Lemma trace_is_a_bounded_queue_witness :
  let st := PlotApp_defaults in
  let po := PlotApp.mkPlotOptions "time" "theta2" in
  let ts := repeat (Fin 16) (S 5000) in
  PlotApp.tracePointsRef
    (animate_run st po (Fin 16 :: ts) (PlotApp.animStart initial_state))
  = skipn (length ts - 5000)
      (recorded st po ts
         (PlotApp.animate st po (Fin 16) (PlotApp.animStart initial_state))).
Proof.
  refine (proj1 (trace_is_a_bounded_queue PlotApp_defaults
           (PlotApp.mkPlotOptions "time" "theta2") initial_state (Fin 16)
           (repeat (Fin 16) (S 5000)) _)).
  change (Forall (fun t => PlotApp.falsy t = false)
            (repeat (Fin 16) (S (S 5000)))).
  apply Forall_forall. intros t Ht. apply repeat_spec in Ht. subst t.
  apply falsy_Fin. lra.
Defined.

(* ------------------------------------------------------------------ *)
(** ** Auto-scaling the plot *)

Lemma fold_max_finite (rs : list R) :
  forall m : R,
    exists M : R,
      fold_left JS.max (map Fin rs) (Fin m) = Fin M
      /\ m <= M /\ Forall (fun r => r <= M) rs.
Proof.
  induction rs as [| r rs IH]; intros m.
  - exists m. repeat split; [lra | constructor].
  - cbn [map fold_left JS.max].
    destruct (IH (Rmax m r)) as [M [E [Hm Hall]]].
    exists M. split; [exact E |].
    pose proof (Rmax_l m r). pose proof (Rmax_r m r).
    split; [lra |]. constructor; [lra | exact Hall].
Qed.

Lemma max_of_finite (rs : list R) (c : R) :
  exists M : R,
    PlotApp.max_of (map Fin rs ++ [Fin c]) = Fin M
    /\ c <= M /\ Forall (fun r => r <= M) rs.
Proof.
  unfold PlotApp.max_of.
  change [Fin c] with (map Fin [c]). rewrite <- map_app.
  destruct rs as [| r rs].
  - exists c. cbn. repeat split; [lra | constructor].
  - cbn [app map fold_left JS.max].
    destruct (fold_max_finite (rs ++ [c]) r) as [M [E [Hr Hall]]].
    exists M. split; [exact E |].
    apply Forall_app in Hall. destruct Hall as [Hrs Hc].
    inversion Hc; subst. split; [assumption |]. now constructor.
Qed.

Lemma finite_point_coords (p : PlotApp.TracePoint.t) :
  finite_point p ->
  PlotApp.TracePoint.x p = Fin (Rx p) /\ PlotApp.TracePoint.y p = Fin (Ry p).
Proof.
  intros (a & b & Ea & Eb). unfold Rx, Ry. now rewrite Ea, Eb.
Qed.

Lemma abs_coords_finite (f : PlotApp.TracePoint.t -> num)
    (rf : PlotApp.TracePoint.t -> R) (l : list PlotApp.TracePoint.t) :
  Forall (fun p => f p = Fin (rf p)) l ->
  map (fun p => JS.abs (f p)) l = map Fin (map (fun p => Rabs (rf p)) l).
Proof.
  intros H. rewrite map_map. apply map_ext_in. intros p Hp.
  rewrite (proj1 (Forall_forall _ _) H p Hp). reflexivity.
Qed.

Lemma scaled_inside (c a M s : R) :
  0 < c -> 0 < M -> Rabs a <= M -> 0 < s -> s <= c / 2 / M ->
  0.1 * c <= c / 2 + a * (s * 0.8) <= 0.9 * c
  /\ 0.1 * c <= c / 2 + - (a * (s * 0.8)) <= 0.9 * c.
Proof.
  intros Hc HM Ha Hs Hle.
  assert (Hprod : Rabs a * s <= M * (c / 2 / M)).
  { apply Rmult_le_compat; [apply Rabs_pos | lra | exact Ha | exact Hle]. }
  replace (M * (c / 2 / M)) with (c / 2) in Hprod by (field; lra).
  assert (Habs : Rabs (a * s) <= c / 2).
  { rewrite Rabs_mult, (Rabs_right s) by lra. exact Hprod. }
  unfold Rabs in Habs. destruct (Rcase_abs (a * s)); lra.
Qed.

(** X15.  With auto-scaling on, [drawPlot] draws each of the last hundred
    trace points inside the 600 by 400 plot canvas, whatever finite
    coordinates the points have (at least two points): the divisor of the
    scale is at least 0.1, so no division by zero occurs even when all
    points sit on an axis. *)
Theorem autoscale_keeps_recent_points_in_view
    (zoomRef : option PlotApp.ZoomWindow.t)
    (points : list PlotApp.TracePoint.t) :
  Forall finite_point points ->
  (2 <= length points)%nat ->
  Forall (fun q => in_cc 0 600 (px q) /\ in_cc 0 400 (py q))
    (skipn (length points - 100)
       (PlotApp.drawPlot 600 400 true zoomRef points)).
Proof.
  intros Hfin Hlen.
  unfold PlotApp.drawPlot.
  destruct (Nat.ltb_spec (length points) 2) as [Hlt | _]; [lia |].
  cbv zeta. rewrite skipn_map.
  set (vis := skipn (length points - 100) points).
  assert (Hvis : Forall finite_point vis).
  { apply Forall_forall. intros p Hp.
    apply (proj1 (Forall_forall _ _) Hfin).
    rewrite <- (firstn_skipn (length points - 100) points).
    apply in_or_app. now right. }
  assert (Hx : Forall (fun p => PlotApp.TracePoint.x p = Fin (Rx p)) vis).
  { eapply Forall_impl; [| exact Hvis].
    intros p Hp. apply (finite_point_coords p Hp). }
  assert (Hy : Forall (fun p => PlotApp.TracePoint.y p = Fin (Ry p)) vis).
  { eapply Forall_impl; [| exact Hvis].
    intros p Hp. apply (finite_point_coords p Hp). }
  unfold PlotApp.plotScale. cbv zeta. fold vis.
  rewrite (abs_coords_finite _ _ vis Hx), (abs_coords_finite _ _ vis Hy).
  destruct (max_of_finite (map (fun p => Rabs (Rx p)) vis) 0.1)
    as [Mx [-> [HMx Hallx]]].
  destruct (max_of_finite (map (fun p => Rabs (Ry p)) vis) 0.1)
    as [My [-> [HMy Hally]]].
  rewrite !div_Fin by lra. js_arith.
  set (m := Rmin (600 / 2 / Mx) (400 / 2 / My)).
  assert (Hqx : 0 < 600 / 2 / Mx)
    by (apply Rdiv_lt_0_compat; lra).
  assert (Hqy : 0 < 400 / 2 / My)
    by (apply Rdiv_lt_0_compat; lra).
  assert (Hm : 0 < m) by (unfold m; now apply Rmin_glb_lt).
  assert (Hmx : m <= 600 / 2 / Mx) by apply Rmin_l.
  assert (Hmy : m <= 400 / 2 / My) by apply Rmin_r.
  apply Forall_map. apply Forall_forall. intros p Hp. cbn [px py].
  rewrite (proj1 (Forall_forall _ _) Hx p Hp),
          (proj1 (Forall_forall _ _) Hy p Hp).
  js_arith.
  assert (Hax : Rabs (Rx p) <= Mx).
  { apply (proj1 (Forall_forall _ _) Hallx).
    apply (in_map (fun p => Rabs (Rx p))). exact Hp. }
  assert (Hay : Rabs (Ry p) <= My).
  { apply (proj1 (Forall_forall _ _) Hally).
    apply (in_map (fun p => Rabs (Ry p))). exact Hp. }
  split; eexists; (split; [reflexivity |]).
  - pose proof (scaled_inside 600 (Rx p) Mx m). lra.
  - pose proof (scaled_inside 400 (Ry p) My m). lra.
Qed.

Lemma autoscale_keeps_recent_points_in_view_witness :
  Forall (fun q => in_cc 0 600 (px q) /\ in_cc 0 400 (py q))
    (skipn (2 - 100)
       (PlotApp.drawPlot 600 400 true None
          [PlotApp.TracePoint.mk 0 0 0;
           PlotApp.TracePoint.mk (Fin (- 1.3)) 0 1])).
Proof.
  apply (autoscale_keeps_recent_points_in_view None
           [PlotApp.TracePoint.mk 0 0 0;
            PlotApp.TracePoint.mk (Fin (- 1.3)) 0 1]);
    [| cbn; lia].
  repeat constructor.
  - now exists 0, 0.
  - now exists (- 1.3), 0.
Defined.

(* ------------------------------------------------------------------ *)
(** ** A state that holds [NaN] *)

Lemma add_NaN_r (a : num) : JS.add a NaN = NaN.
Proof. now destruct a. Qed.

Lemma mul_NaN_r (a : num) : JS.mul a NaN = NaN.
Proof. now destruct a. Qed.

Lemma sub_NaN_r (a : num) : JS.sub a NaN = NaN.
Proof. now destruct a. Qed.

Lemma wrap_NaN : App.wrap NaN = NaN.
Proof. reflexivity. Qed.

(** X18.  [NaN] never leaves: if one of the two angles is [NaN] (as after
    dragging bob 2 onto the pivot with equal links), one step of the inline
    engine makes all four fields [NaN], for every setting and every [dt];
    so every later frame starts from [NaN] again. *)
Theorem NaN_state_is_absorbing (st : App.Settings) (dt : num) (s : State.t) :
  State.theta1 s = NaN \/ State.theta2 s = NaN ->
  App.step st dt s = State.mk NaN NaN NaN NaN.
Proof.
  destruct s as [t1 t2 w1 w2]. cbn [State.theta1 State.theta2].
  intros H.
  assert (Hs : JS.sin (App.delta (State.mk t1 t2 w1 w2)) = NaN).
  { unfold App.delta. js_fields.
    destruct H as [-> | ->]; [reflexivity | now rewrite sub_NaN_r]. }
  assert (E1 : App.ddtheta1 st (State.mk t1 t2 w1 w2) = NaN).
  { unfold App.ddtheta1, App.ddtheta1_num. rewrite Hs. js_fields.
    rewrite mul_NaN_r. cbn [JS.mul]. rewrite sub_NaN_r. reflexivity. }
  assert (E2 : App.ddtheta2 st (State.mk t1 t2 w1 w2) = NaN).
  { unfold App.ddtheta2, App.ddtheta2_num. rewrite Hs. js_fields.
    rewrite mul_NaN_r. reflexivity. }
  rewrite App_step_unfold. cbv zeta. rewrite E1, E2.
  unfold App.advance. js_fields.
  cbn [JS.sub JS.add JS.neg JS.mul].
  repeat (rewrite add_NaN_r; cbn [JS.mul]).
  reflexivity.
Qed.

Lemma NaN_state_is_absorbing_witness :
  App.step App_defaults (Fin (1 / 20)) (State.mk NaN NaN 0 0)
  = State.mk NaN NaN NaN NaN.
Proof.
  apply NaN_state_is_absorbing. now left.
Defined.
